(** * Voice dementia screening pipeline: length normalizer, TCN classifier
      shapes, score interpreter and inference orchestrator.

    Shallow embedding of [src/azrt2021/tcn.py] (TCN.__init__, TCN.forward,
    TCN.reformat) and of the scoring part of [predict_voice_from_audio]
    in [src/api.py] (the same logic appears in [predict_voice] of
    [src/test_voice.py]). *)

From Stdlib Require Import List Arith Lia Bool.
From Stdlib Require Import Reals Lra.
From Stdlib Require Ascii Strings.String.
Import (notations) Ascii Strings.String.
Import ListNotations.

(* ------------------------------------------------------------------ *)
(** ** Score interpreter ([predict_voice_from_audio], api.py 276-310) *)

Module ScoreInterpreter.
Local Open Scope R_scope.

(** [torch.softmax(scores, dim=1)] on a (1, 2) score tensor [[a, b]],
    computed over the reals. *)
Definition softmax2 (a b : R) : R * R :=
  (exp a / (exp a + exp b), exp b / (exp a + exp b)).

Inductive label := dementia_detected | normal.

(** The dictionary returned on success (only the fields the decision
    determines).  [rnd] is [round(_, 4)] as applied by the source to
    every reported probability and to the confidence. *)
Record result := {
  res_result : label;
  res_normal : R;
  res_dementia : R;
  res_confidence : R
}.

Section Interpret.
Variable rnd : R -> R.

(** [probs = torch.softmax(scores, dim=1)];
    [dementia_prob = probs[0][0]]; [normal_prob = probs[0][1]];
    [if dementia_prob > 0.5: ... else: ...]. *)
Definition interpret (a b : R) : result :=
  let probs := softmax2 a b in
  let dementia_prob := fst probs in
  let normal_prob := snd probs in
  let '(res, confidence) :=
    if Rgt_dec dementia_prob 0.5
    then (dementia_detected, dementia_prob)
    else (normal, normal_prob) in
  {| res_result := res;
     res_normal := rnd normal_prob;
     res_dementia := rnd dementia_prob;
     res_confidence := rnd confidence |}.
End Interpret.

End ScoreInterpreter.

(* ------------------------------------------------------------------ *)
(** ** Sequence normalizer ([TCN.reformat], tcn.py 129-192) *)

Module Normalizer.

Definition SAFE_SEQ_LENGTH : nat := 16384.
Arguments SAFE_SEQ_LENGTH : simpl never.

Section Reformat.
(** [V] is the element type of the arrays; [zero] is the [0.0] written by
    [torch.zeros]; [cvt] is the element-wise cast performed by
    [torch.tensor(_, dtype=torch.float32)] / [.to(dtype=torch.float32)]. *)
Variable V : Type.
Variable zero : V.
Variable cvt : V -> V.

(** A two-axis array of shape [(nrows, ncols)], stored row by row. *)
Record mat := { nrows : nat; ncols : nat; cells : list (list V) }.

Definition mat_wf (m : mat) : Prop :=
  length (cells m) = nrows m /\ Forall (fun r => length r = ncols m) (cells m).

(** An array held in the list [Xs]: a 2-D array, the 3-D view
    [(1, nrows, ncols)] of a 2-D array, or an array of any other shape
    whose contents play no role here. *)
Inductive arr :=
| A2 (m : mat)
| A3 (m : mat)
| Aother (shape : list nat).

Definition shape (a : arr) : list nat :=
  match a with
  | A2 m => [nrows m; ncols m]
  | A3 m => [1; nrows m; ncols m]
  | Aother s => s
  end.

Definition dim (a : arr) : nat := length (shape a).

(** An element of [Xs]: a numpy array or a torch tensor. *)
Inductive item := Np (a : arr) | Tt (a : arr).

Definition map_mat (f : V -> V) (m : mat) : mat :=
  {| nrows := nrows m; ncols := ncols m; cells := map (map f) (cells m) |}.

Definition map_arr (f : V -> V) (a : arr) : arr :=
  match a with
  | A2 m => A2 (map_mat f m)
  | A3 m => A3 (map_mat f m)
  | Aother s => Aother s
  end.

(** [torch.tensor(Xs[idx], dtype=torch.float32, device=self.device)] or
    [Xs[idx].to(dtype=torch.float32, device=self.device)]. *)
Definition to_f32 (x : item) : arr :=
  match x with
  | Np a => map_arr cvt a
  | Tt a => map_arr cvt a
  end.

(** The array an element holds, numpy or torch. *)
Definition item_arr (x : item) : arr :=
  match x with Np a => a | Tt a => a end.

(** [X.permute(1, 0)]. *)
Definition transpose (c : nat) (rows : list (list V)) : list (list V) :=
  map (fun j => map (fun row => nth j row zero) rows) (seq 0 c).

Definition permute10 (m : mat) : mat :=
  {| nrows := ncols m; ncols := nrows m; cells := transpose (ncols m) (cells m) |}.

(** [torch.cat([X, torch.zeros(X.shape[0], p)], dim=1)]. *)
Definition pad_zeros (m : mat) (p : nat) : mat :=
  {| nrows := nrows m; ncols := ncols m + p;
     cells := map (fun row => row ++ repeat zero p) (cells m) |}.

(** [X[:, :n]]. *)
Definition take_cols (m : mat) (n : nat) : mat :=
  {| nrows := nrows m; ncols := Nat.min (ncols m) n;
     cells := map (firstn n) (cells m) |}.

(** The exceptions [reformat] can raise. *)
Inductive err :=
| ErrNotTwoD (d : nat) (s : list nat)   (* "Expected 2D tensor, got {d}D with shape {s}" *)
| ErrShape (s : list nat)               (* "Unexpected tensor shape {s}. Expected ..." *)
| ErrAssert (len : nat)                 (* the [assert] on [shape[1]] *)
| ErrFinal (len : nat) (s : list nat).  (* "Final sequence length ..." *)

(** [if X.shape[0] != 13: if X.shape[1] == 13: X = X.permute(1, 0)
    else: raise ValueError(...)]: [None] when it raises. *)
Definition orient (m : mat) : option mat :=
  if negb (nrows m =? 13) then
    if ncols m =? 13 then Some (permute10 m) else None
  else Some m.

(** The pad-or-truncate block on [seq_length = X.shape[1]]. *)
Definition pad_or_truncate (m1 : mat) : mat :=
  let seq_length := ncols m1 in
  if seq_length <? SAFE_SEQ_LENGTH
  then pad_zeros m1 (SAFE_SEQ_LENGTH - seq_length)
  else if SAFE_SEQ_LENGTH <? seq_length
  then take_cols m1 SAFE_SEQ_LENGTH
  else m1.

(** The body of the loop for one index: the value left in [Xs[idx]] and
    the exception raised, if any. *)
Definition reformat_one (x : item) : item * option err :=
  let t := to_f32 x in
  match t with
  | A2 m =>
      match orient m with
      | None => (Tt t, Some (ErrShape (shape t)))
      | Some m1 =>
          let m2 := pad_or_truncate m1 in
          if negb (ncols m2 =? SAFE_SEQ_LENGTH)
          then (Tt (A2 m2), Some (ErrAssert (ncols m2)))
          else
            let v := A3 m2 in
            let final_length := ncols m2 in
            if negb (final_length =? SAFE_SEQ_LENGTH)
            then (Tt v, Some (ErrFinal final_length (shape v)))
            else (Tt v, None)
      end
  | _ => (Tt t, Some (ErrNotTwoD (dim t) (shape t)))
  end.

(** [for idx, _ in enumerate(Xs): ...]: the list [Xs] as it stands when the
    loop ends or raises, and the exception raised, if any. *)
Fixpoint reformat (Xs : list item) : list item * option err :=
  match Xs with
  | [] => ([], None)
  | x :: rest =>
      let '(y, e) := reformat_one x in
      match e with
      | Some e => (y :: rest, Some e)
      | None => let '(ys, e') := reformat rest in (y :: ys, e')
      end
  end.

(** The channel-major content of a well-oriented 2-D array, as the source
    decides it: permuted exactly when the first axis is not 13. *)
Definition channel_major (m : mat) : mat :=
  if nrows m =? 13 then m else permute10 m.

End Reformat.

Arguments nrows {V} m.
Arguments ncols {V} m.
Arguments cells {V} m.
Arguments Build_mat {V} nrows ncols cells.
Arguments shape {V} a.
Arguments dim {V} a.
Arguments A2 {V} m.
Arguments A3 {V} m.
Arguments Aother {V} shape.
Arguments Np {V} a.
Arguments Tt {V} a.

End Normalizer.

(* ------------------------------------------------------------------ *)
(** ** Convolutional classifier shapes ([TCN.__init__], [TCN.forward],
       tcn.py 20-103) *)

Module Classifier.

(** The modules of [self.tcn] and [self.mlp]. *)
Inductive layer :=
| Conv1d (in_channels out_channels kernel_size stride padding : nat)
| ELU
| MaxPool1d (kernel_size stride padding : nat)
| Linear (in_features out_features : nat).

(** [self.tcn = nn.Sequential(...)], in source order. *)
Definition tcn_layers : list layer :=
  [ Conv1d 13 32 1 1 0;
    Conv1d 32 32 3 1 1; Conv1d 32 32 3 1 1; ELU; MaxPool1d 4 4 0;
    Conv1d 32 64 3 1 1; Conv1d 64 64 3 1 1; ELU; MaxPool1d 4 4 0;
    Conv1d 64 128 3 1 1; Conv1d 128 128 3 1 1; ELU; MaxPool1d 4 4 0;
    Conv1d 128 128 3 1 1; Conv1d 128 128 3 1 1; ELU; MaxPool1d 4 4 0;
    Conv1d 128 256 3 1 1; Conv1d 256 256 3 1 1; ELU; MaxPool1d 4 4 0;
    Conv1d 256 256 3 1 1; Conv1d 256 256 3 1 1; ELU; MaxPool1d 4 4 0;
    Conv1d 256 512 3 1 1; Conv1d 512 512 3 1 1; ELU; MaxPool1d 4 4 0;
    Conv1d 512 512 3 1 1; Conv1d 512 512 3 1 1; ELU ].

(** [self.mlp = nn.Sequential(nn.Linear(512, 2, bias=False))]. *)
Definition mlp_layers : list layer := [Linear 512 2].

(** The [RuntimeError]s torch raises from these modules. *)
Inductive rt_err :=
| ConvChannelMismatch (expected got : nat)
| ConvInputTooSmall (len : nat)
| MaxPoolInvalidOutputSize (len : nat)  (* "max_pool1d ... Invalid computed output size" *)
| BadRank (s : list nat)
| LinearMismatch (expected got : nat).

(** Output length of a 1-D convolution or pooling window
    [floor((L + 2p - k) / s) + 1], defined when [L + 2p >= k]. *)
Definition out_len (l k s p : nat) : option nat :=
  if k <=? l + 2 * p then Some ((l + 2 * p - k) / s + 1) else None.

(** Shape of the output of one module on an input of shape [sh]. *)
Definition layer_shape (ly : layer) (sh : list nat) : rt_err + list nat :=
  match ly with
  | Conv1d cin cout k s p =>
      match sh with
      | [n; c; l] =>
          if negb (c =? cin) then inl (ConvChannelMismatch cin c)
          else match out_len l k s p with
               | Some l' => inr [n; cout; l']
               | None => inl (ConvInputTooSmall l)
               end
      | _ => inl (BadRank sh)
      end
  | ELU => inr sh
  | MaxPool1d k s p =>
      match sh with
      | [n; c; l] =>
          match out_len l k s p with
          | Some l' => inr [n; c; l']
          | None => inl (MaxPoolInvalidOutputSize l)
          end
      | _ => inl (BadRank sh)
      end
  | Linear fin fout =>
      match rev sh with
      | last :: rest =>
          if last =? fin then inr (rev (fout :: rest)) else inl (LinearMismatch fin last)
      | [] => inl (BadRank sh)
      end
  end.

(** [nn.Sequential]: the modules applied in order. *)
Fixpoint run_shape (ls : list layer) (sh : list nat) : rt_err + list nat :=
  match ls with
  | [] => inr sh
  | ly :: rest =>
      match layer_shape ly sh with
      | inl e => inl e
      | inr sh' => run_shape rest sh'
      end
  end.

Definition is_maxpool (ly : layer) : bool :=
  match ly with MaxPool1d _ _ _ => true | _ => false end.

(** Factor by which a module divides the time axis (1 when it does not). *)
Definition pool_factor (ly : layer) : nat :=
  match ly with MaxPool1d _ s _ => s | _ => 1 end.

(** [torch.mean(tmp, dim=2)]. *)
Definition mean_dim2 (sh : list nat) : list nat :=
  firstn 2 sh ++ skipn 3 sh.

(** [tmp.squeeze()]. *)
Definition squeeze (sh : list nat) : list nat := filter (fun d => negb (d =? 1)) sh.

(** The exceptions [forward] can raise. *)
Inductive fwd_err :=
| FwdIndexError (s : list nat)                   (* [X.shape[2]] on a tensor of rank < 3 *)
| FwdLength (len : nat) (s : list nat) (idx : nat) (* the ValueError of the length check *)
| FwdMaxPool (idx : nat) (s : list nat)          (* the re-raised MaxPool1d RuntimeError *)
| FwdRuntime (e : rt_err)                        (* any other RuntimeError, re-raised *)
| FwdStackEmpty                                  (* [torch.stack([])] *)
| FwdStackMismatch.                              (* [torch.stack] of unequal shapes *)

(** [torch.stack(out)]. *)
Definition stack (outs : list (list nat)) : fwd_err + list nat :=
  match outs with
  | [] => inl FwdStackEmpty
  | s :: rest =>
      if forallb (fun s' => if list_eq_dec Nat.eq_dec s' s then true else false) rest
      then inr (length outs :: s) else inl FwdStackMismatch
  end.

(** The loop of [forward], on the shapes of the tensors of [Xs], starting at
    index [idx]: the indices of the tensors handed to [self.tcn] (in call
    order), and the per-sample output shapes or the exception raised. *)
Fixpoint forward_loop (idx : nat) (Xs : list (list nat))
  : list nat * (fwd_err + list (list nat)) :=
  match Xs with
  | [] => ([], inr [])
  | X :: rest =>
      match nth_error X 2 with
      | None => ([], inl (FwdIndexError X))
      | Some l =>
          if negb (l =? 16384) then ([], inl (FwdLength l X idx))
          else
            match run_shape tcn_layers X with
            | inl (MaxPoolInvalidOutputSize _) => ([idx], inl (FwdMaxPool idx X))
            | inl e => ([idx], inl (FwdRuntime e))
            | inr sh =>
                match run_shape mlp_layers (mean_dim2 sh) with
                | inl e => ([idx], inl (FwdRuntime e))
                | inr sh2 =>
                    let '(calls, r) := forward_loop (S idx) rest in
                    (idx :: calls,
                     match r with
                     | inl e => inl e
                     | inr outs => inr (squeeze sh2 :: outs)
                     end)
                end
            end
      end
  end.

(** [TCN.forward(Xs)]: indices handed to [self.tcn], and the output shape
    or the exception. *)
Definition forward (Xs : list (list nat)) : list nat * (fwd_err + list nat) :=
  let '(calls, r) := forward_loop 0 Xs in
  (calls, match r with
          | inl e => inl e
          | inr outs => stack outs
          end).

(** One stage of [self.tcn]: two width-3 convolutions, ELU, and a width-4
    stride-4 pooling; [stages cin couts] chains stages with the successive
    output channel counts [couts]. *)
Definition stage (cin cout : nat) : list layer :=
  [Conv1d cin cout 3 1 1; Conv1d cout cout 3 1 1; ELU; MaxPool1d 4 4 0].

Fixpoint stages (cin : nat) (couts : list nat) : list layer :=
  match couts with
  | [] => []
  | c :: cs => stage cin c ++ stages c cs
  end.

(** [TCN.forward_wo_gpool(Xs)]: [self.tcn] applied to each tensor in turn,
    with no length check; the per-sample output shapes or the first
    [RuntimeError]. *)
Fixpoint forward_wo_gpool (Xs : list (list nat)) : rt_err + list (list nat) :=
  match Xs with
  | [] => inr []
  | X :: rest =>
      match run_shape tcn_layers X with
      | inl e => inl e
      | inr sh =>
          match forward_wo_gpool rest with
          | inl e => inl e
          | inr outs => inr (sh :: outs)
          end
      end
  end.

End Classifier.

(* ------------------------------------------------------------------ *)
(** ** Inference orchestrator ([load_model] and [predict_voice_from_audio],
       api.py 215-291) *)

Module Orchestrator.

Section Predict.
Variable V : Type.
Variable zero : V.
Variable cvt : V -> V.
(** The classifier's parameter tensors, its score tensor, and the value the
    score interpreter builds from the scores. *)
Variable Params Scores Res : Type.
(** The numeric result of [model_obj.nn.get_scores] as a function of the
    parameters and of the normalized batch. *)
Variable net : Params -> list (Normalizer.item V) -> Classifier.fwd_err + Scores.
Variable interp : Scores -> Res.

(** The loaded [TCN] module: its parameters, [training] flag and the
    [requires_grad] flag shared by its parameters. *)
Record module_state := {
  params : Params;
  training : bool;
  requires_grad : bool
}.

(** Process state the call runs in: torch's grad mode, the global
    [model_obj], and the grad mode seen by each forward call, newest first. *)
Record rt_state := {
  grad_enabled : bool;
  model : module_state;
  fwd_log : list bool
}.

Inductive exn :=
| ReformatError (e : Normalizer.err)
| ForwardError (e : Classifier.fwd_err).

(** A state and exception monad. *)
Definition M (A : Type) : Type := rt_state -> (exn + A) * rt_state.

Definition ret {A} (a : A) : M A := fun st => (inr a, st).

Definition bind {A B} (m : M A) (f : A -> M B) : M B :=
  fun st => match m st with
            | (inl e, st') => (inl e, st')
            | (inr a, st') => f a st'
            end.

Definition set_grad (b : bool) (st : rt_state) : rt_state :=
  {| grad_enabled := b; model := model st; fwd_log := fwd_log st |}.

(** [with torch.no_grad(): body]: grad mode off inside, the previous mode
    restored on exit, also when [body] raises. *)
Definition no_grad {A} (body : M A) : M A :=
  fun st =>
    let saved := grad_enabled st in
    let '(r, st1) := body (set_grad false st) in
    (r, set_grad saved st1).

(** [model_obj.nn.reformat(mfcc_list, 10)]: touches only the list. *)
Definition reformat_m (xs : list (Normalizer.item V)) : M (list (Normalizer.item V)) :=
  fun st =>
    let '(ys, e) := Normalizer.reformat V zero cvt xs in
    (match e with Some e => inl (ReformatError e) | None => inr ys end, st).

(** [model_obj.nn.get_scores(mfcc_list)]: reads the parameters. *)
Definition get_scores (xs : list (Normalizer.item V)) : M Scores :=
  fun st =>
    (match net (params (model st)) xs with
     | inl e => inl (ForwardError e)
     | inr s => inr s
     end,
     {| grad_enabled := grad_enabled st; model := model st;
        fwd_log := grad_enabled st :: fwd_log st |}).

(** The inference part of [predict_voice_from_audio]. *)
Definition predict (mfcc_features : Normalizer.item V) : M Res :=
  bind (reformat_m [mfcc_features]) (fun mfcc_list =>
  bind (no_grad (get_scores mfcc_list)) (fun scores =>
  ret (interp scores))).


(** The prediction together with the [audio_info["mfcc_features_shape"]]
    field of the returned dictionary, read from the local [mfcc_features]
    once the prediction is done ([reformat] replaces the list slot, not that
    variable). *)
Definition predict_response (mfcc_features : Normalizer.item V) : M (Res * list nat) :=
  bind (predict mfcc_features) (fun r =>
  ret (r, Normalizer.shape (Normalizer.item_arr V mfcc_features))).

End Predict.

End Orchestrator.


(* ------------------------------------------------------------------ *)
(** ** Python string and path primitives *)

Module PyStr.

(** A Python [str], as the list of its characters (ASCII text). *)
Definition str := list Ascii.ascii.

Definition lit (s : String.string) : str := String.list_ascii_of_string s.

Definition ceqb (a b : Ascii.ascii) : bool :=
  if Ascii.ascii_dec a b then true else false.

(** [s == t]. *)
Definition eqb (s t : str) : bool :=
  if list_eq_dec Ascii.ascii_dec s t then true else false.

(** [s.startswith(pre)]. *)
Fixpoint startswith (s pre : str) : bool :=
  match pre, s with
  | [], _ => true
  | c :: pre', d :: s' => ceqb c d && startswith s' pre'
  | _ :: _, [] => false
  end.

(** [s.endswith(suf)]. *)
Fixpoint endswith (s suf : str) : bool :=
  eqb s suf || match s with [] => false | _ :: s' => endswith s' suf end.

(** [sub in s]. *)
Fixpoint contains (s sub : str) : bool :=
  startswith s sub || match s with [] => false | _ :: s' => contains s' sub end.

(** [str.lower] and [str.upper] on one ASCII character. *)
Definition lower_char (c : Ascii.ascii) : Ascii.ascii :=
  let n := Ascii.nat_of_ascii c in
  if (65 <=? n) && (n <=? 90) then Ascii.ascii_of_nat (n + 32) else c.

Definition upper_char (c : Ascii.ascii) : Ascii.ascii :=
  let n := Ascii.nat_of_ascii c in
  if (97 <=? n) && (n <=? 122) then Ascii.ascii_of_nat (n - 32) else c.

Definition lower (s : str) : str := map lower_char s.
Definition upper (s : str) : str := map upper_char s.

(** [s.replace(a, b)] for one-character [a] and [b]. *)
Definition replace1 (a b : Ascii.ascii) (s : str) : str :=
  map (fun c => if ceqb c a then b else c) s.

(** [s.rfind(c)]: [None] for [-1]. *)
Fixpoint rfind (c : Ascii.ascii) (s : str) : option nat :=
  match s with
  | [] => None
  | d :: s' =>
      match rfind c s' with
      | Some i => Some (S i)
      | None => if ceqb d c then Some 0 else None
      end
  end.

(** [s.split(c)]. *)
Fixpoint split (c : Ascii.ascii) (s : str) : list str :=
  match s with
  | [] => [[]]
  | d :: s' =>
      if ceqb d c then [] :: split c s'
      else match split c s' with
           | w :: ws => (d :: w) :: ws
           | [] => [[d]]
           end
  end.

(** The character class [\d] on ASCII text. *)
Definition is_digit (c : Ascii.ascii) : bool :=
  let n := Ascii.nat_of_ascii c in (48 <=? n) && (n <=? 57).

(** [s.zfill(w)]. *)
Definition zfill (w : nat) (s : str) : str :=
  if w <=? length s then s
  else match s with
       | c :: s' =>
           if ceqb c "+"%char || ceqb c "-"%char
           then c :: repeat "0"%char (w - length s) ++ s'
           else repeat "0"%char (w - length s) ++ s
       | [] => repeat "0"%char w
       end.

Fixpoint uint_str (u : Decimal.uint) : str :=
  match u with
  | Decimal.Nil => []
  | Decimal.D0 u => "0"%char :: uint_str u
  | Decimal.D1 u => "1"%char :: uint_str u
  | Decimal.D2 u => "2"%char :: uint_str u
  | Decimal.D3 u => "3"%char :: uint_str u
  | Decimal.D4 u => "4"%char :: uint_str u
  | Decimal.D5 u => "5"%char :: uint_str u
  | Decimal.D6 u => "6"%char :: uint_str u
  | Decimal.D7 u => "7"%char :: uint_str u
  | Decimal.D8 u => "8"%char :: uint_str u
  | Decimal.D9 u => "9"%char :: uint_str u
  end.

(** [str(n)] for a natural number. *)
Definition str_of_nat (n : nat) : str := uint_str (Nat.to_uint n).

End PyStr.

Module PyPath.
Import PyStr.

(** The components of [PurePosixPath(s)] after its anchor: the text between
    separators, with empty components and ["."] collapsed. *)
Definition parse (s : str) : list str :=
  filter (fun w => negb (eqb w []) && negb (eqb w (lit "."))) (split "/"%char s).

(** [p.name]: the last component, [""] when there is none. *)
Definition name (parts : list str) : str := last parts [].

(** [p.parent] (the parent of a path with no components is itself). *)
Definition parent (parts : list str) : list str := removelast parts.

(** [p.suffix] and [p.stem] of a final component [n]:
    [i = n.rfind('.')]; a suffix exists when [0 < i < len(n) - 1]. *)
Definition suffix (n : str) : str :=
  match rfind "."%char n with
  | Some i => if (0 <? i) && (i <? length n - 1) then skipn i n else []
  | None => []
  end.

Definition stem (n : str) : str :=
  match rfind "."%char n with
  | Some i => if (0 <? i) && (i <? length n - 1) then firstn i n else n
  | None => n
  end.

(** [os.path.join(a, b)] (posixpath). *)
Definition join (a b : str) : str :=
  if startswith b (lit "/") then b
  else if eqb a [] || endswith a (lit "/") then a ++ b
  else a ++ lit "/" ++ b.

(** [os.path.splitext(p)] (posixpath): the last dot of the last component
    starts the extension, unless only dots precede it in that component. *)
Definition splitext (p : str) : str * str :=
  let start := match rfind "/"%char p with Some i => S i | None => 0 end in
  match rfind "."%char p with
  | Some d =>
      if (start <=? d) &&
         existsb (fun c => negb (ceqb c "."%char)) (firstn (d - start) (skipn start p))
      then (firstn d p, skipn d p)
      else (p, [])
  | None => (p, [])
  end.

End PyPath.

(* ------------------------------------------------------------------ *)
(** ** Import path set-up (api.py 25-41 and 82-83; [setup_environment],
       run.py 10-48) *)

Module SysPath.
Import PyStr.

(** The test deciding whether an entry [p] of [sys.path] is kept. *)
Definition keep (current_dir p : str) : bool :=
  if eqb p current_dir then true
  else if negb (contains p (lit "src")) then true
  else if negb (endswith p (lit "src")) && negb (endswith p (lit "src/"))
  then contains p current_dir || contains current_dir p
  else false.

Definition filter_path (current_dir : str) (sys_path : list str) : list str :=
  filter (keep current_dir) sys_path.

(** [x in l] on a list of strings. *)
Definition mem (x : str) (l : list str) : bool := existsb (eqb x) l.

(** The [sys.path] left by the set-up: filtered, [current_dir] inserted in
    front when absent, then [azrt2021_dir] inserted in front when absent
    and present on disk ([azrt_exists]). *)
Definition setup_path (current_dir azrt2021_dir : str) (azrt_exists : bool)
    (sys_path : list str) : list str :=
  let p1 := filter_path current_dir sys_path in
  let p2 := if negb (mem current_dir p1) then current_dir :: p1 else p1 in
  if negb (mem azrt2021_dir p2) && azrt_exists then azrt2021_dir :: p2 else p2.

End SysPath.

(* ------------------------------------------------------------------ *)
(** ** Upload validation ([predict], api.py 374-381) *)

Module Upload.
Import PyStr PyPath.

Definition allowed_extensions : list str :=
  map lit [".mp3"; ".wav"; ".flac"; ".m4a"; ".ogg"; ".aac"]%string.

(** [Path(file.filename).suffix.lower()]. *)
Definition file_extension (filename : str) : str :=
  lower (suffix (name (parse filename))).

(** [file_extension in allowed_extensions]; the request is refused with
    status 400 when this is [false]. *)
Definition upload_ok (filename : str) : bool :=
  existsb (eqb (file_extension filename)) allowed_extensions.

End Upload.

(* ------------------------------------------------------------------ *)
(** ** Authorization forwarding ([predict_from_url], api.py 468-472) *)

Module Auth.
Import PyStr.

(** The [Authorization] header added to the download request, if any. *)
Definition auth_header (authorization : option str) : option str :=
  match authorization with
  | Some a =>
      if negb (eqb a []) then
        if startswith a (lit "Bearer ") then Some a else Some (lit "Bearer " ++ a)
      else None
  | None => None
  end.

End Auth.

(* ------------------------------------------------------------------ *)
(** ** Model file resolution ([load_model], api.py 145-205; the local search
       also in [predict_voice], test_voice.py 76-101) *)

Module ModelFile.
Import PyStr PyPath.

(** [file.endswith('.pt') and 'tmp' not in file]. *)
Definition candidate (file : str) : bool :=
  endswith file (lit ".pt") && negb (contains file (lit "tmp")).

(** [pt_files] built from the entries [(root, file, mtime)] that [os.walk]
    visits, in visiting order; each path is kept with its [getmtime]. *)
Definition pt_files (walk : list (str * str * nat)) : list (str * nat) :=
  map (fun '(root, file, t) => (join root file, t))
      (filter (fun '(root, file, t) => candidate file) walk).

(** [list.sort(key=os.path.getmtime, reverse=True)]: a stable sort by
    decreasing key (stable sorts of a list all give the same result). *)
Fixpoint insert_desc (x : str * nat) (l : list (str * nat)) : list (str * nat) :=
  match l with
  | [] => [x]
  | y :: l' => if snd x <? snd y then y :: insert_desc x l' else x :: l
  end.

Fixpoint sort_desc (l : list (str * nat)) : list (str * nat) :=
  match l with
  | [] => []
  | x :: l' => insert_desc x (sort_desc l')
  end.

(** The exceptions raised while resolving the model file. *)
Inductive load_err :=
| DownloadFailed (url : str)       (* "Failed to download model from URL: ..." *)
| NoTrainedModel                   (* FileNotFoundError "No trained model found..." *)
| ModelDirNotFound                 (* FileNotFoundError "Model directory not found..." *)
| ModelFileNotFound (path : str).  (* FileNotFoundError "Model file not found: ..." *)

(** The search of [pt_files_dir]: [dir_exists] is [pt_files_dir.exists()]. *)
Definition find_local (dir_exists : bool) (walk : list (str * str * nat)) : load_err + str :=
  if dir_exists then
    match sort_desc (pt_files walk) with
    | (p, _) :: _ => inr p
    | [] => inl NoTrainedModel
    end
  else inl ModelDirNotFound.

(** The path handed to [model_obj.load_model].  [env] is
    [os.environ.get('MODEL_URL')]; [download] is [urlretrieve] into a
    temporary file ([None] when it raises); [isfile], [dir_exists] and [walk]
    describe the file system after that download. *)
Definition resolve_model_path (env model_path : option str)
    (download : str -> option str) (isfile : str -> bool)
    (dir_exists : bool) (walk : list (str * str * nat)) : load_err + str :=
  let mp1 :=
    match env with
    | Some u => if negb (eqb u []) then Some u else model_path
    | None => model_path
    end in
  let mp2 :=
    match mp1 with
    | Some s =>
        if negb (eqb s []) && (startswith s (lit "http://") || startswith s (lit "https://"))
        then match download s with
             | Some tmp => inr (Some tmp)
             | None => inl (DownloadFailed s)
             end
        else inr mp1
    | None => inr None
    end in
  match mp2 with
  | inl e => inl e
  | inr mp =>
      let mp3 :=
        match mp with
        | None => find_local dir_exists walk
        | Some s =>
            if negb (startswith s (lit "http")) && negb (isfile s)
            then find_local dir_exists walk else inr s
        end in
      match mp3 with
      | inl e => inl e
      | inr s =>
          if negb (startswith s (lit "http")) && negb (isfile s)
          then inl (ModelFileNotFound s) else inr s
      end
  end.

End ModelFile.

(* ------------------------------------------------------------------ *)
(** ** Dataset conversion helpers ([find_audio_files_by_person] and
       [generate_csv_from_persons] in convert_all_data.py and
       auto_convert_audio.py; [batch_process] in preprocess_audio.py) *)

Module Persons.
Import PyStr PyPath.

Definition path_eqb (p q : list str) : bool :=
  if list_eq_dec (list_eq_dec Ascii.ascii_dec) p q then true else false.

(** The person a file [audio_file] found under [directory] is filed under.
    Paths are their component lists; [audio_file] is [directory] followed by
    the components [rglob] walked through, so both share one anchor. *)
Definition person_name (directory audio_file : list str) : str :=
  let pn := name (parent audio_file) in
  if eqb pn (name directory) || eqb pn (lit "data") then
    if negb (path_eqb (parent (parent audio_file)) directory)
    then name (parent (parent audio_file))
    else hd [] (split "_"%char (stem (name audio_file)))
  else pn.

(** [re.findall(r'\d+', s)[0]], [None] when there is no match. *)
Fixpoint digit_run (s : str) : str :=
  match s with
  | c :: s' => if is_digit c then c :: digit_run s' else []
  | [] => []
  end.

Fixpoint first_digits (s : str) : option str :=
  match s with
  | [] => None
  | c :: s' => if is_digit c then Some (digit_run s) else first_digits s'
  end.

(** The ["id"] column; [hash_value] is [abs(hash(person_name))]. *)
Definition person_id_num (hash_value : nat) (person_name : str) : str :=
  let person_id := upper (replace1 "/"%char "_"%char (replace1 " "%char "_"%char person_name)) in
  match first_digits person_id with
  | Some numbers0 => zfill 4 numbers0
  | None => zfill 4 (str_of_nat (hash_value mod 10000))
  end.

Record row := {
  idtype : str;
  id : str;
  mfcc_npy_files : list str;
  is_demented_at_recording : nat;
  row_person_name : str
}.

Section Csv.
(** [abs(hash(_))] and [os.path.relpath(_, csv_dir)]. *)
Variable hash : str -> nat.
Variable relpath : str -> str.

Fixpoint lookup (d : list (str * nat)) (k : str) : option nat :=
  match d with
  | [] => None
  | (k', v) :: d' => if eqb k' k then Some v else lookup d' k
  end.

(** [labels.get(person_name, default) if labels else default]. *)
Definition label_of (labels : list (str * nat)) (default : nat) (person_name : str) : nat :=
  match labels with
  | [] => default
  | _ => match lookup labels person_name with Some l => l | None => default end
  end.

(** [[mfcc for audio, mfcc in files_list if mfcc is not None]]. *)
Definition mfcc_files (files_list : list (str * option str)) : list str :=
  flat_map (fun '(_, m) => match m with Some f => [f] | None => [] end) files_list.

(** The rows, one per person with at least one converted file, in the
    order of [person_data]. *)
Fixpoint csv_rows (labels : list (str * nat)) (default : nat)
    (person_data : list (str * list (str * option str))) : list row :=
  match person_data with
  | [] => []
  | (pname, files_list) :: rest =>
      match mfcc_files files_list with
      | [] => csv_rows labels default rest
      | fs =>
          {| idtype := lit "FHS";
             id := person_id_num (hash pname) pname;
             mfcc_npy_files := map relpath fs;
             is_demented_at_recording := label_of labels default pname;
             row_person_name := pname |} :: csv_rows labels default rest
      end
  end.

(** [generate_csv_from_persons]: the rows written, [None] when it returns
    [None] without writing. *)
Definition generate_csv (labels : list (str * nat)) (default : nat)
    (person_data : list (str * list (str * option str))) : option (list row) :=
  match csv_rows labels default person_data with
  | [] => None
  | rows => Some rows
  end.
End Csv.

End Persons.

Module Batch.
Import PyStr PyPath.

Definition audio_extensions : list str :=
  map lit [".mp3"; ".wav"; ".flac"; ".m4a"; ".ogg"]%string.

(** [audio_files] as built from [os.listdir(input_dir)]. *)
Definition audio_files (listing : list str) : list str :=
  flat_map (fun ext => filter (fun f => endswith (lower f) ext) listing) audio_extensions.

(** [os.path.splitext(audio_file)[0] + '.npy']. *)
Definition output_file (audio_file : str) : str :=
  fst (splitext audio_file) ++ lit ".npy".

(** The (input, output) path pairs handed to [audio_to_mfcc], in order. *)
Definition batch_jobs (input_dir output_dir : str) (listing : list str) : list (str * str) :=
  map (fun f => (join input_dir f, join output_dir (output_file f))) (audio_files listing).

End Batch.

(* ------------------------------------------------------------------ *)
(** ** Concrete inputs (feature values as naturals, the cast the identity) *)

Module Samples.
Import Normalizer.

Definition cvt_id (v : nat) : nat := v.

Definition const_mat (r c v : nat) : mat nat :=
  {| nrows := r; ncols := c; cells := repeat (repeat v c) r |}.

(** A short channel-major (13, 2) matrix. *)
Definition short_13x2 : mat nat := const_mat 13 2 1.

(** A long channel-major (13, 16385) matrix. *)
Definition long_13x16385 : mat nat := const_mat 13 16385 1.

(** A (5, 7) matrix: neither axis is 13. *)
Definition bad_5x7 : mat nat := const_mat 5 7 1.

(** A square (13, 13) matrix with entry [13 * i + j] at row [i], column [j]. *)
Definition square_13x13 : mat nat :=
  {| nrows := 13; ncols := 13;
     cells := map (fun i => map (fun j => 13 * i + j) (seq 0 13)) (seq 0 13) |}.

Definition norm (Xs : list (item nat)) : list (item nat) * option err :=
  reformat nat 0 cvt_id Xs.

End Samples.

(* ================================================================== *)
(** * Properties *)

(* ------------------------------------------------------------------ *)
(** ** Score interpreter *)

Module ScoreInterpreterFacts.
Import ScoreInterpreter.
Local Open Scope R_scope.

Lemma softmax2_sum (a b : R) : fst (softmax2 a b) + snd (softmax2 a b) = 1.
Proof.
  unfold softmax2; simpl.
  pose proof (exp_pos a); pose proof (exp_pos b).
  field; lra.
Qed.


Lemma softmax2_tie (a : R) : fst (softmax2 a a) = 0.5.
Proof.
  unfold softmax2; simpl. pose proof (exp_pos a).
  transitivity (1 / 2); [field; lra | lra].
Qed.

(** C1: softmax gives two probabilities summing to 1; index 0 is the
    dementia probability and index 1 the normal one; the label is
    "dementia_detected" with confidence the dementia probability exactly
    when that probability is strictly above 0.5, and "normal" with
    confidence the normal probability otherwise, a tie at 0.5 included.
    (Every reported number goes through the same [round(_, 4)], [rnd].) *)
Theorem interpret_decision (rnd : R -> R) (a b : R) :
  let p_dementia := fst (softmax2 a b) in
  let p_normal := snd (softmax2 a b) in
  let r := interpret rnd a b in
  p_dementia + p_normal = 1 /\
  res_dementia r = rnd p_dementia /\ res_normal r = rnd p_normal /\
  (p_dementia > 0.5 ->
     res_result r = dementia_detected /\ res_confidence r = rnd p_dementia) /\
  (p_dementia <= 0.5 ->
     res_result r = normal /\ res_confidence r = rnd p_normal) /\
  (a = b -> p_dementia = 0.5 /\ res_result r = normal /\
            res_confidence r = rnd p_normal).
Proof.
  cbv zeta.
  pose proof (softmax2_sum a b) as Hsum.
  unfold interpret; cbv zeta.
  destruct (Rgt_dec (fst (softmax2 a b)) 0.5) as [g|ng]; cbv beta iota.
  - split; [exact Hsum|]. split; [reflexivity|]. split; [reflexivity|].
    split; [intros _; split; reflexivity|].
    split; [intros Hle; exfalso; lra|].
    intros ->; rewrite softmax2_tie in g; exfalso; lra.
  - split; [exact Hsum|]. split; [reflexivity|]. split; [reflexivity|].
    split; [intros Hgt; contradiction|].
    split; [intros _; split; reflexivity|].
    intros ->; split; [apply softmax2_tie | split; reflexivity].
Qed.

End ScoreInterpreterFacts.

(* ------------------------------------------------------------------ *)
(** ** Sequence normalizer *)

Module NormalizerFacts.
Import Normalizer.

Section Facts.
Variable V : Type.
Variable zero : V.
Variable cvt : V -> V.

Local Abbreviation mat := (mat V).
Local Abbreviation item := (item V).
Local Abbreviation mat_wf := (mat_wf V).
Local Abbreviation map_mat := (map_mat V).
Local Abbreviation transpose := (transpose V zero).
Local Abbreviation permute10 := (permute10 V zero).
Local Abbreviation pad_zeros := (pad_zeros V zero).
Local Abbreviation take_cols := (take_cols V).
Local Abbreviation orient := (orient V zero).
Local Abbreviation pad_or_truncate := (pad_or_truncate V zero).
Local Abbreviation channel_major := (channel_major V zero).
Local Abbreviation to_f32 := (to_f32 V cvt).
Local Abbreviation item_arr := (item_arr V).
Local Abbreviation reformat_one := (reformat_one V zero cvt).
Local Abbreviation reformat := (reformat V zero cvt).

Lemma nth_map_lt {A B : Type} (f : A -> B) (l : list A) (d : B) (d' : A) (i : nat) :
  i < length l -> nth i (map f l) d = f (nth i l d').
Proof.
  intros Hi. rewrite (nth_indep _ d (f d')) by (rewrite length_map; exact Hi).
  apply map_nth.
Qed.

Lemma Forall_nth_len (rows : list (list V)) (c i : nat) :
  Forall (fun r => length r = c) rows -> i < length rows ->
  length (nth i rows []) = c.
Proof.
  intros HF Hi. rewrite Forall_forall in HF. apply HF, nth_In, Hi.
Qed.

Lemma map_mat_wf (f : V -> V) (m : mat) : mat_wf m -> mat_wf (map_mat f m).
Proof.
  intros [Hl HF]; split; simpl.
  - now rewrite length_map.
  - rewrite Forall_map. eapply Forall_impl; [|exact HF].
    intros r Hr; simpl. now rewrite length_map.
Qed.

Lemma transpose_length (c : nat) (rows : list (list V)) :
  length (transpose c rows) = c.
Proof. unfold Normalizer.transpose. now rewrite length_map, length_seq. Qed.

Lemma transpose_nth (c : nat) (rows : list (list V)) (i j : nat) :
  i < c -> j < length rows ->
  nth j (nth i (transpose c rows) []) zero = nth i (nth j rows []) zero.
Proof.
  intros Hi Hj. unfold Normalizer.transpose.
  rewrite (nth_map_lt _ _ _ 0) by (rewrite length_seq; exact Hi).
  rewrite seq_nth by exact Hi. simpl.
  now rewrite (nth_map_lt _ _ _ []) by exact Hj.
Qed.

Lemma permute10_wf (m : mat) : mat_wf m -> mat_wf (permute10 m).
Proof.
  intros [Hl HF]; split; simpl.
  - apply transpose_length.
  - unfold Normalizer.transpose. rewrite Forall_map, Forall_forall.
    intros j _. now rewrite length_map.
Qed.

Lemma permute10_nth (m : mat) (t c : nat) :
  mat_wf m -> t < ncols m -> c < nrows m ->
  nth c (nth t (cells (permute10 m)) []) zero = nth t (nth c (cells m) []) zero.
Proof.
  intros [Hl HF] Ht Hc. simpl. apply transpose_nth; [exact Ht | lia].
Qed.

Lemma pad_zeros_wf (m : mat) (p : nat) : mat_wf m -> mat_wf (pad_zeros m p).
Proof.
  intros [Hl HF]; split; simpl.
  - now rewrite length_map.
  - rewrite Forall_map. eapply Forall_impl; [|exact HF].
    intros r Hr; simpl. now rewrite length_app, repeat_length, Hr.
Qed.

Lemma pad_zeros_nth (m : mat) (p c t : nat) :
  mat_wf m -> c < nrows m ->
  nth t (nth c (cells (pad_zeros m p)) []) zero =
  if t <? ncols m then nth t (nth c (cells m) []) zero else zero.
Proof.
  intros [Hl HF] Hc. simpl.
  rewrite (nth_map_lt _ _ _ []) by lia.
  pose proof (Forall_nth_len (cells m) (ncols m) c HF ltac:(lia)) as Hlen.
  destruct (Nat.ltb_spec t (ncols m)) as [Ht|Ht].
  - rewrite app_nth1 by lia. reflexivity.
  - rewrite app_nth2 by lia.
    destruct (Nat.lt_ge_cases (t - length (nth c (cells m) [])) p) as [Hp|Hp].
    + now rewrite nth_repeat_lt.
    + rewrite nth_overflow; [reflexivity | rewrite repeat_length; lia].
Qed.

Lemma take_cols_wf (m : mat) (n : nat) : mat_wf m -> mat_wf (take_cols m n).
Proof.
  intros [Hl HF]; split; simpl.
  - now rewrite length_map.
  - rewrite Forall_map. eapply Forall_impl; [|exact HF].
    intros r Hr; simpl. rewrite length_firstn, Hr. lia.
Qed.

Lemma take_cols_nth (m : mat) (n c t : nat) :
  mat_wf m -> c < nrows m -> t < n ->
  nth t (nth c (cells (take_cols m n)) []) zero = nth t (nth c (cells m) []) zero.
Proof.
  intros [Hl HF] Hc Ht. simpl.
  rewrite (nth_map_lt _ _ _ []) by lia.
  now rewrite nth_firstn, (proj2 (Nat.ltb_lt _ _) Ht).
Qed.

Lemma map_mat_nth (f : V -> V) (m : mat) (c t : nat) :
  mat_wf m -> c < nrows m -> t < ncols m ->
  nth t (nth c (cells (map_mat f m)) []) zero = f (nth t (nth c (cells m) []) zero).
Proof.
  intros [Hl HF] Hc Ht. simpl.
  rewrite (nth_map_lt _ _ _ []) by lia.
  apply nth_map_lt. rewrite (Forall_nth_len _ _ _ HF) by lia. exact Ht.
Qed.

Lemma orient_channel_major (m : mat) :
  nrows m = 13 \/ ncols m = 13 -> orient m = Some (channel_major m).
Proof.
  intros H. unfold Normalizer.orient, Normalizer.channel_major.
  destruct (Nat.eqb_spec (nrows m) 13) as [E|E]; simpl; [reflexivity|].
  destruct (Nat.eqb_spec (ncols m) 13) as [E'|E']; [reflexivity | lia].
Qed.

Lemma orient_some (m m1 : mat) :
  orient m = Some m1 -> (nrows m = 13 \/ ncols m = 13) /\ m1 = channel_major m.
Proof.
  unfold Normalizer.orient, Normalizer.channel_major.
  destruct (Nat.eqb_spec (nrows m) 13) as [E|E]; simpl.
  - intros H; inversion H; subst. split; [now left | reflexivity].
  - destruct (Nat.eqb_spec (ncols m) 13) as [E'|E']; [|discriminate].
    intros H; inversion H; subst. split; [now right | reflexivity].
Qed.

Lemma channel_major_wf (m : mat) : mat_wf m -> mat_wf (channel_major m).
Proof.
  intros Hwf. unfold Normalizer.channel_major.
  destruct (nrows m =? 13); [exact Hwf | now apply permute10_wf].
Qed.

Lemma channel_major_nrows (m : mat) :
  nrows m = 13 \/ ncols m = 13 -> nrows (channel_major m) = 13.
Proof.
  intros H. unfold Normalizer.channel_major.
  destruct (Nat.eqb_spec (nrows m) 13) as [E|E]; simpl; [exact E | lia].
Qed.

Lemma channel_major_map (m : mat) (c t : nat) :
  mat_wf m -> c < nrows (channel_major m) -> t < ncols (channel_major m) ->
  nth t (nth c (cells (channel_major (map_mat cvt m))) []) zero =
  cvt (nth t (nth c (cells (channel_major m)) []) zero).
Proof.
  intros Hwf. unfold Normalizer.channel_major. simpl.
  destruct (nrows m =? 13).
  - intros Hc Ht. now apply map_mat_nth.
  - simpl. intros Hc Ht.
    rewrite (permute10_nth (map_mat cvt m)) by (simpl; try apply map_mat_wf; auto).
    rewrite (permute10_nth m) by auto.
    apply map_mat_nth; auto.
Qed.

Lemma pad_or_truncate_ncols (m : mat) : ncols (pad_or_truncate m) = SAFE_SEQ_LENGTH.
Proof.
  unfold Normalizer.pad_or_truncate.
  destruct (Nat.ltb_spec (ncols m) SAFE_SEQ_LENGTH).
  - cbn [ncols Normalizer.pad_zeros]. lia.
  - destruct (Nat.ltb_spec SAFE_SEQ_LENGTH (ncols m));
      cbn [ncols Normalizer.take_cols]; lia.
Qed.

Lemma pad_or_truncate_nrows (m : mat) : nrows (pad_or_truncate m) = nrows m.
Proof.
  unfold Normalizer.pad_or_truncate.
  destruct (_ <? _); [reflexivity|]. destruct (_ <? _); reflexivity.
Qed.

Lemma pad_or_truncate_wf (m : mat) : mat_wf m -> mat_wf (pad_or_truncate m).
Proof.
  intros Hwf. unfold Normalizer.pad_or_truncate.
  destruct (_ <? _); [now apply pad_zeros_wf|].
  destruct (_ <? _); [now apply take_cols_wf | exact Hwf].
Qed.

Lemma to_f32_item_arr (x : item) : to_f32 x = map_arr V cvt (item_arr x).
Proof. now destruct x. Qed.

(** The loop body on a well-oriented 2-D array. *)
Lemma reformat_one_oriented (x : item) (m : mat) :
  item_arr x = A2 m -> nrows m = 13 \/ ncols m = 13 ->
  reformat_one x = (Tt (A3 (pad_or_truncate (channel_major (map_mat cvt m)))), None).
Proof.
  intros Hx Ho. unfold Normalizer.reformat_one.
  rewrite to_f32_item_arr, Hx. simpl.
  rewrite orient_channel_major by (simpl; exact Ho).
  rewrite pad_or_truncate_ncols, Nat.eqb_refl. reflexivity.
Qed.

(** The loop body raises nothing only on a well-oriented 2-D array. *)
Lemma reformat_one_none (x y : item) :
  reformat_one x = (y, None) ->
  exists m, item_arr x = A2 m /\ (nrows m = 13 \/ ncols m = 13) /\
            y = Tt (A3 (pad_or_truncate (channel_major (map_mat cvt m)))).
Proof.
  unfold Normalizer.reformat_one. rewrite to_f32_item_arr.
  destruct (item_arr x) as [m|m|sh] eqn:Hx; simpl; try discriminate.
  destruct (orient (map_mat cvt m)) as [m1|] eqn:Ho; [|discriminate].
  apply orient_some in Ho. destruct Ho as [Ho ->].
  rewrite pad_or_truncate_ncols, Nat.eqb_refl. intros H; inversion H; subst.
  exists m. split; [reflexivity|]. split; [exact Ho | reflexivity].
Qed.

Lemma reformat_ok_iff (Xs Ys : list item) :
  reformat Xs = (Ys, None) <-> Forall2 (fun x y => reformat_one x = (y, None)) Xs Ys.
Proof.
  revert Ys. induction Xs as [|x rest IH]; intros Ys; simpl.
  - split; [intros H; inversion H; constructor | intros H; inversion H; reflexivity].
  - destruct (reformat_one x) as [y [e|]] eqn:Hx.
    + split; [intros H; inversion H | intros H; inversion H; subst; congruence].
    + destruct (reformat rest) as [ys e'] eqn:Hr. split.
      * intros H; inversion H; subst. constructor; [exact Hx|]. apply IH; reflexivity.
      * intros H; inversion H as [|x' y' rest' ys' Hxy Hrest]; subst.
        rewrite Hx in Hxy; inversion Hxy; subst.
        apply IH in Hrest. inversion Hrest; subst. reflexivity.
Qed.

(** The list as it stands when the loop raises at the first failing index. *)
Lemma reformat_raise (pre : list item) (x y : item) (post : list item) (e : err) :
  Forall (fun x => snd (reformat_one x) = None) pre ->
  reformat_one x = (y, Some e) ->
  reformat (pre ++ x :: post) =
  (map (fun x => fst (reformat_one x)) pre ++ y :: post, Some e).
Proof.
  intros Hpre Hx. induction Hpre as [|x' pre' Hx' Hpre' IH]; simpl.
  - now rewrite Hx.
  - destruct (reformat_one x') as [y' [e'|]]; simpl in Hx'; [discriminate|].
    now rewrite IH.
Qed.

Lemma reformat_error (Xs Ys : list item) (e : err) :
  reformat Xs = (Ys, Some e) ->
  exists pre x post y,
    Xs = pre ++ x :: post /\
    Forall (fun x => snd (reformat_one x) = None) pre /\
    reformat_one x = (y, Some e) /\
    Ys = map (fun x => fst (reformat_one x)) pre ++ y :: post.
Proof.
  revert Ys. induction Xs as [|x rest IH]; intros Ys; simpl; [discriminate|].
  destruct (reformat_one x) as [y [e'|]] eqn:Hx.
  - intros H; inversion H; subst.
    exists [], x, rest, y. repeat split; auto.
  - destruct (reformat rest) as [ys e''] eqn:Hr. intros H; inversion H; subst.
    destruct (IH ys eq_refl) as (pre & x0 & post & y0 & -> & Hpre & Hx0 & ->).
    exists (x :: pre), x0, post, y0. split; [reflexivity|]. split.
    + constructor; [now rewrite Hx | exact Hpre].
    + split; [exact Hx0|]. simpl. now rewrite Hx.
Qed.

Lemma Forall2_nth_error_l {A B : Type} (R : A -> B -> Prop) (l : list A) (l' : list B)
      (i : nat) (a : A) :
  Forall2 R l l' -> nth_error l i = Some a -> exists b, nth_error l' i = Some b /\ R a b.
Proof.
  intros HF. revert i. induction HF as [|a0 b0 l0 l0' Hab HF IH]; intros i Hi.
  - destruct i; discriminate.
  - destruct i as [|i]; simpl in Hi.
    + inversion Hi; subst. exists b0. split; [reflexivity | exact Hab].
    + apply IH, Hi.
Qed.

Lemma channel_major_map_dims (f : V -> V) (m : mat) :
  nrows (channel_major (map_mat f m)) = nrows (channel_major m) /\
  ncols (channel_major (map_mat f m)) = ncols (channel_major m).
Proof.
  unfold Normalizer.channel_major; simpl. destruct (nrows m =? 13); simpl; auto.
Qed.

Lemma pad_or_truncate_short (m : mat) (c t : nat) :
  mat_wf m -> ncols m <= SAFE_SEQ_LENGTH -> c < nrows m ->
  nth t (nth c (cells (pad_or_truncate m)) []) zero =
  if t <? ncols m then nth t (nth c (cells m) []) zero else zero.
Proof.
  intros Hwf Hle Hc. unfold Normalizer.pad_or_truncate.
  destruct (Nat.ltb_spec (ncols m) SAFE_SEQ_LENGTH) as [Hlt|Hge].
  - now apply pad_zeros_nth.
  - destruct (Nat.ltb_spec SAFE_SEQ_LENGTH (ncols m)) as [Hgt|_]; [lia|].
    destruct (Nat.ltb_spec t (ncols m)) as [Ht|Ht]; [reflexivity|].
    apply nth_overflow. destruct Hwf as [Hl HF].
    rewrite (Forall_nth_len _ _ _ HF) by lia. exact Ht.
Qed.

Lemma pad_or_truncate_long (m : mat) (c t : nat) :
  mat_wf m -> SAFE_SEQ_LENGTH < ncols m -> c < nrows m -> t < SAFE_SEQ_LENGTH ->
  nth t (nth c (cells (pad_or_truncate m)) []) zero = nth t (nth c (cells m) []) zero.
Proof.
  intros Hwf Hgt Hc Ht. unfold Normalizer.pad_or_truncate.
  destruct (Nat.ltb_spec (ncols m) SAFE_SEQ_LENGTH) as [Hlt|_]; [lia|].
  destruct (Nat.ltb_spec SAFE_SEQ_LENGTH (ncols m)) as [_|Hle]; [|lia].
  now apply take_cols_nth.
Qed.

(** The normalized array for a well-oriented, well-formed element. *)
Lemma reformat_elem (Xs Ys : list item) (i : nat) (x : item) (m0 : mat) :
  reformat Xs = (Ys, None) -> nth_error Xs i = Some x -> item_arr x = A2 m0 ->
  mat_wf m0 -> nrows m0 = 13 \/ ncols m0 = 13 ->
  let out := pad_or_truncate (channel_major (map_mat cvt m0)) in
  nth_error Ys i = Some (Tt (A3 out)) /\ mat_wf out /\
  nrows out = 13 /\ ncols out = SAFE_SEQ_LENGTH.
Proof.
  intros Hok Hi Hx Hwf Ho out.
  apply reformat_ok_iff in Hok.
  destruct (Forall2_nth_error_l _ _ _ _ _ Hok Hi) as (y & Hy & Hxy).
  rewrite (reformat_one_oriented x m0 Hx Ho) in Hxy. inversion Hxy; subst.
  split; [exact Hy|]. split.
  - apply pad_or_truncate_wf, channel_major_wf, map_mat_wf, Hwf.
  - split; [|apply pad_or_truncate_ncols].
    unfold out. rewrite pad_or_truncate_nrows. apply channel_major_nrows. exact Ho.
Qed.

(** C3: for a well-oriented feature matrix whose time length [T] is at most
    SAFE_LENGTH, the normalized tensor holds, in channel-major order, the
    original values (cast to float32) at the first [T] time positions and
    zeros at every position beyond. *)
Theorem reformat_pads_short (Xs Ys : list item) (i : nat) (x : item) (m0 : mat)
  (Hok : reformat Xs = (Ys, None)) (Hi : nth_error Xs i = Some x)
  (Hx : item_arr x = A2 m0) (Hwf : mat_wf m0) (Ho : nrows m0 = 13 \/ ncols m0 = 13)
  (Hlen : ncols (channel_major m0) <= SAFE_SEQ_LENGTH) :
  exists out,
    nth_error Ys i = Some (Tt (A3 out)) /\ mat_wf out /\
    nrows out = 13 /\ ncols out = SAFE_SEQ_LENGTH /\
    forall c t, c < 13 -> t < SAFE_SEQ_LENGTH ->
      nth t (nth c (cells out) []) zero =
      if t <? ncols (channel_major m0)
      then cvt (nth t (nth c (cells (channel_major m0)) []) zero)
      else zero.
Proof.
  destruct (reformat_elem Xs Ys i x m0 Hok Hi Hx Hwf Ho) as (Hy & Hw & Hr & Hc).
  eexists. split; [exact Hy|]. split; [exact Hw|]. split; [exact Hr|]. split; [exact Hc|].
  intros c t Hc13 Ht.
  destruct (channel_major_map_dims cvt m0) as [Er Ec].
  pose proof (channel_major_nrows m0 Ho) as E13.
  rewrite pad_or_truncate_short.
  - rewrite Ec. destruct (Nat.ltb_spec t (ncols (channel_major m0))); [|reflexivity].
    apply channel_major_map; [exact Hwf | lia | lia].
  - apply channel_major_wf, map_mat_wf, Hwf.
  - lia.
  - lia.
Qed.

(** C4: for a well-oriented feature matrix whose time length exceeds
    SAFE_LENGTH, the normalized tensor is exactly the first SAFE_LENGTH time
    columns of the (channel-major, float32) input. *)
Theorem reformat_truncates_long (Xs Ys : list item) (i : nat) (x : item) (m0 : mat)
  (Hok : reformat Xs = (Ys, None)) (Hi : nth_error Xs i = Some x)
  (Hx : item_arr x = A2 m0) (Hwf : mat_wf m0) (Ho : nrows m0 = 13 \/ ncols m0 = 13)
  (Hlen : SAFE_SEQ_LENGTH < ncols (channel_major m0)) :
  exists out,
    nth_error Ys i = Some (Tt (A3 out)) /\ mat_wf out /\
    nrows out = 13 /\ ncols out = SAFE_SEQ_LENGTH /\
    forall c t, c < 13 -> t < SAFE_SEQ_LENGTH ->
      nth t (nth c (cells out) []) zero =
      cvt (nth t (nth c (cells (channel_major m0)) []) zero).
Proof.
  destruct (reformat_elem Xs Ys i x m0 Hok Hi Hx Hwf Ho) as (Hy & Hw & Hr & Hc).
  eexists. split; [exact Hy|]. split; [exact Hw|]. split; [exact Hr|]. split; [exact Hc|].
  intros c t Hc13 Ht.
  destruct (channel_major_map_dims cvt m0) as [Er Ec].
  pose proof (channel_major_nrows m0 Ho) as E13.
  rewrite pad_or_truncate_long.
  - apply channel_major_map; [exact Hwf | lia | lia].
  - apply channel_major_wf, map_mat_wf, Hwf.
  - lia.
  - lia.
  - exact Ht.
Qed.

Lemma SAFE_SEQ_LENGTH_ge_13 : 13 <= SAFE_SEQ_LENGTH.
Proof. apply Nat.leb_le. vm_compute. reflexivity. Qed.

Lemma mat_ext (m1 m2 : mat) :
  mat_wf m1 -> mat_wf m2 -> nrows m1 = nrows m2 -> ncols m1 = ncols m2 ->
  (forall c t, c < nrows m1 -> t < ncols m1 ->
     nth t (nth c (cells m1) []) zero = nth t (nth c (cells m2) []) zero) ->
  m1 = m2.
Proof.
  destruct m1 as [r1 c1 x1], m2 as [r2 c2 x2]; unfold Normalizer.mat_wf; simpl.
  intros [Hl1 HF1] [Hl2 HF2] -> -> Hnth. f_equal.
  apply nth_ext with (d := []) (d' := []); [lia|].
  intros c Hc.
  apply nth_ext with (d := zero) (d' := zero).
  - rewrite (Forall_nth_len _ _ _ HF1), (Forall_nth_len _ _ _ HF2); lia.
  - intros t Ht. rewrite (Forall_nth_len _ _ _ HF1) in Ht by lia. apply Hnth; lia.
Qed.

Lemma permute10_map_permute10 (f : V -> V) (m : mat) :
  mat_wf m -> permute10 (map_mat f (permute10 m)) = map_mat f m.
Proof.
  intros Hwf.
  pose proof (permute10_wf m Hwf) as Hp.
  pose proof (map_mat_wf f _ Hp) as Hmp.
  apply mat_ext; [now apply permute10_wf | now apply map_mat_wf | reflexivity | reflexivity |].
  intros c t Hc Ht. simpl in Hc, Ht.
  rewrite (permute10_nth (map_mat f (permute10 m)) c t Hmp) by (simpl; lia).
  rewrite (map_mat_nth f (permute10 m) t c Hp) by (simpl; lia).
  rewrite (permute10_nth m t c Hwf Ht Hc).
  symmetry. now apply map_mat_nth.
Qed.

(** On success every element is left as a (1, 13, SAFE_LENGTH) tensor. *)
Lemma reformat_success_shape (Xs Ys : list item) :
  reformat Xs = (Ys, None) ->
  Forall (fun y => exists m, y = Tt (A3 m) /\
            shape (A3 m) = [1; 13; SAFE_SEQ_LENGTH]) Ys.
Proof.
  intros H. apply reformat_ok_iff in H.
  induction H as [|x y xs ys Hxy HF IH]; constructor; [|exact IH].
  destruct (reformat_one_none x y Hxy) as (m & Hx & Ho & ->).
  eexists; split; [reflexivity|]. simpl.
  rewrite pad_or_truncate_ncols, pad_or_truncate_nrows.
  destruct (channel_major_map_dims cvt m) as [Er _].
  rewrite Er, channel_major_nrows by exact Ho. reflexivity.
Qed.

(** C6 (as amended): when every element before index [k] normalizes and the
    element at [k] is a 2-D matrix with neither axis of length 13, the
    normalizer raises the shape-validation error carrying the observed shape;
    that element is left cast to float32 but neither padded nor truncated,
    and the elements after it are untouched. *)
Theorem reformat_rejects_bad_shape (pre post : list item) (b : item) (mb : mat)
  (Hpre : Forall (fun x => snd (reformat_one x) = None) pre)
  (Hb : item_arr b = A2 mb) (Hr : nrows mb <> 13) (Hc : ncols mb <> 13) :
  reformat (pre ++ b :: post) =
  (map (fun x => fst (reformat_one x)) pre ++ Tt (A2 (map_mat cvt mb)) :: post,
   Some (ErrShape [nrows mb; ncols mb])).
Proof.
  apply reformat_raise; [exact Hpre |].
  unfold Normalizer.reformat_one, Normalizer.orient.
  rewrite to_f32_item_arr, Hb. cbn [map_arr Normalizer.map_mat nrows ncols].
  rewrite (proj2 (Nat.eqb_neq _ _) Hr), (proj2 (Nat.eqb_neq _ _) Hc). reflexivity.
Qed.

(** C7 (as amended): the same content presented as (13, T) and, transposed,
    as (T, 13) normalizes to the same tensor whenever T is not 13. *)
Theorem reformat_orientation_invariant (m0 : mat) (x1 x2 : item)
  (Hwf : mat_wf m0) (Hr : nrows m0 = 13) (Hc : ncols m0 <> 13)
  (H1 : item_arr x1 = A2 m0) (H2 : item_arr x2 = A2 (permute10 m0)) :
  reformat [x1] = reformat [x2].
Proof.
  simpl.
  rewrite (reformat_one_oriented x1 m0 H1 (or_introl Hr)).
  rewrite (reformat_one_oriented x2 (permute10 m0) H2 (or_intror Hr)).
  unfold Normalizer.channel_major. cbn [Normalizer.map_mat Normalizer.permute10 nrows].
  rewrite (proj2 (Nat.eqb_eq _ _) Hr), (proj2 (Nat.eqb_neq _ _) Hc).
  change {| nrows := ncols m0; ncols := nrows m0;
            cells := map (map cvt) (cells (permute10 m0)) |}
    with (map_mat cvt (permute10 m0)).
  rewrite (permute10_map_permute10 cvt m0 Hwf).
  reflexivity.
Qed.

(** C9: the normalizer leaves a 2-D matrix unpermuted exactly when its first
    axis has length 13; so a square (13, 13) matrix whose rows are its time
    steps is normalized without transposition and without error, its time
    steps becoming the channels of the output. *)
Theorem reformat_square_not_transposed (M : mat) (x : item)
  (Hx : item_arr x = A2 M) (Hwf : mat_wf M) (Hr : nrows M = 13) (Hc : ncols M = 13) :
  (forall m : mat, orient m = Some m <-> nrows m = 13) /\
  exists out,
    reformat [x] = ([Tt (A3 out)], None) /\
    nrows out = 13 /\ ncols out = SAFE_SEQ_LENGTH /\
    forall c t, c < 13 -> t < 13 ->
      nth t (nth c (cells out) []) zero = cvt (nth t (nth c (cells M) []) zero).
Proof.
  split.
  - intros m. unfold Normalizer.orient.
    destruct (Nat.eqb_spec (nrows m) 13) as [E|E]; simpl; [tauto|].
    split; [|intros; contradiction].
    destruct (ncols m =? 13) eqn:E'; [|discriminate].
    intros H. injection H as H. apply (f_equal nrows) in H. simpl in H.
    apply Nat.eqb_eq in E'. lia.
  - exists (pad_or_truncate (channel_major (map_mat cvt M))).
    split; [simpl; now rewrite (reformat_one_oriented x M Hx (or_introl Hr))|].
    destruct (channel_major_map_dims cvt M) as [Er Ec].
    assert (Ecm : channel_major (map_mat cvt M) = map_mat cvt M).
    { unfold Normalizer.channel_major; simpl. now rewrite (proj2 (Nat.eqb_eq _ _) Hr). }
    rewrite pad_or_truncate_nrows, pad_or_truncate_ncols, Ecm.
    split; [exact Hr|]. split; [reflexivity|].
    intros c t Hc13 Ht.
    rewrite pad_or_truncate_short.
    + simpl. rewrite Hc, (proj2 (Nat.ltb_lt _ _) Ht). apply map_mat_nth; [exact Hwf | lia | lia].
    + now apply map_mat_wf.
    + simpl. rewrite Hc. apply SAFE_SEQ_LENGTH_ge_13.
    + simpl. lia.
Qed.

(** C10: the normalizer works in place, element by element, and is not
    atomic: when it raises at index [k], every element below [k] has
    already been replaced by its normalized (1, 13, SAFE_LENGTH) tensor and
    every element above [k] is untouched. *)
Theorem reformat_not_atomic (Xs Ys : list item) (e : err)
  (H : reformat Xs = (Ys, Some e)) :
  exists k,
    k < length Xs /\ length Ys = length Xs /\
    (forall i, i < k -> exists x out,
        nth_error Xs i = Some x /\ nth_error Ys i = Some (Tt (A3 out)) /\
        reformat_one x = (Tt (A3 out), None) /\
        nrows out = 13 /\ ncols out = SAFE_SEQ_LENGTH) /\
    (forall i, k < i -> nth_error Ys i = nth_error Xs i) /\
    (exists x y, nth_error Xs k = Some x /\ nth_error Ys k = Some y /\
                 reformat_one x = (y, Some e)).
Proof.
  destruct (reformat_error Xs Ys e H) as (pre & x & post & y & -> & Hpre & Hx & ->).
  exists (length pre).
  split; [rewrite length_app; simpl; lia|].
  split; [rewrite !length_app, length_map; reflexivity|].
  split; [|split].
  - intros i Hi.
    destruct (nth_error pre i) as [xi|] eqn:Hxi;
      [| apply nth_error_None in Hxi; lia].
    assert (Hn : snd (reformat_one xi) = None).
    { rewrite Forall_forall in Hpre. apply Hpre. eapply nth_error_In; exact Hxi. }
    destruct (reformat_one xi) as [yi ei] eqn:Hyi. simpl in Hn. subst ei.
    destruct (reformat_one_none xi yi Hyi) as (m & Hm & Ho & Eyi).
    exists xi, (pad_or_truncate (channel_major (map_mat cvt m))).
    rewrite nth_error_app1 by exact Hi.
    rewrite nth_error_app1 by (rewrite length_map; exact Hi).
    rewrite nth_error_map, Hxi. cbn [option_map]. rewrite Hyi. cbn [fst]. subst yi.
    split; [reflexivity|]. split; [reflexivity|]. split; [reflexivity|].
    rewrite pad_or_truncate_nrows, pad_or_truncate_ncols.
    destruct (channel_major_map_dims cvt m) as [Er _].
    rewrite Er. split; [now apply channel_major_nrows | reflexivity].
  - intros i Hi.
    rewrite nth_error_app2 by (rewrite length_map; lia).
    rewrite nth_error_app2 by lia.
    rewrite length_map.
    destruct (i - length pre) as [|j] eqn:Ej; [lia|]. reflexivity.
  - exists x, y.
    rewrite nth_error_app2 by lia. rewrite Nat.sub_diag.
    rewrite nth_error_app2 by (rewrite length_map; lia).
    rewrite length_map, Nat.sub_diag. simpl. auto.
Qed.

End Facts.
Import Samples.

Lemma const_mat_wf (r c v : nat) : mat_wf nat (Samples.const_mat r c v).
Proof.
  split; simpl; [apply repeat_length|].
  apply Forall_forall. intros row Hin. apply repeat_spec in Hin. subst row.
  apply repeat_length.
Qed.

Lemma reformat_pads_short_witness :
  norm [Np (A2 short_13x2)] = (fst (norm [Np (A2 short_13x2)]), None) /\
  exists out,
    nth_error (fst (norm [Np (A2 short_13x2)])) 0 = Some (Tt (A3 out)) /\
    ncols out = SAFE_SEQ_LENGTH.
Proof.
  assert (Hok : norm [Np (A2 short_13x2)] = (fst (norm [Np (A2 short_13x2)]), None))
    by (vm_compute; reflexivity).
  split; [exact Hok|].
  destruct (reformat_pads_short nat 0 cvt_id [Np (A2 short_13x2)]
              (fst (norm [Np (A2 short_13x2)])) 0 (Np (A2 short_13x2)) short_13x2
              Hok eq_refl eq_refl (const_mat_wf 13 2 1) (or_introl eq_refl)
              ltac:(apply Nat.leb_le; vm_compute; reflexivity))
    as (out & Hout & _ & _ & Hc & _).
  exists out. split; assumption.
Defined.

Lemma reformat_truncates_long_witness :
  norm [Np (A2 long_13x16385)] = (fst (norm [Np (A2 long_13x16385)]), None) /\
  exists out,
    nth_error (fst (norm [Np (A2 long_13x16385)])) 0 = Some (Tt (A3 out)) /\
    ncols out = SAFE_SEQ_LENGTH.
Proof.
  assert (Hok : norm [Np (A2 long_13x16385)] = (fst (norm [Np (A2 long_13x16385)]), None))
    by (vm_compute; reflexivity).
  split; [exact Hok|].
  destruct (reformat_truncates_long nat 0 cvt_id [Np (A2 long_13x16385)]
              (fst (norm [Np (A2 long_13x16385)])) 0 (Np (A2 long_13x16385)) long_13x16385
              Hok eq_refl eq_refl (const_mat_wf 13 16385 1) (or_introl eq_refl)
              ltac:(apply Nat.ltb_lt; vm_compute; reflexivity))
    as (out & Hout & _ & _ & Hc & _).
  exists out. split; assumption.
Defined.

Lemma reformat_rejects_bad_shape_witness :
  norm [Np (A2 bad_5x7)] =
  ([Tt (A2 (map_mat nat cvt_id bad_5x7))], Some (ErrShape [5; 7])).
Proof.
  apply (reformat_rejects_bad_shape nat 0 cvt_id [] [] (Np (A2 bad_5x7)) bad_5x7).
  - constructor.
  - reflexivity.
  - simpl; lia.
  - simpl; lia.
Defined.

(** C6 refuted as stated: the error raised for the bad matrix is the same at
    index 0 and at index 1 (it carries no index), and a malformed element
    before it makes the normalizer raise a different error first. *)
Lemma reformat_bad_shape_counterexample :
  snd (norm [Np (A2 bad_5x7)]) = snd (norm [Np (A2 short_13x2); Np (A2 bad_5x7)]) /\
  snd (norm [Np (Aother [1; 2; 3]); Np (A2 bad_5x7)]) = Some (ErrNotTwoD 3 [1; 2; 3]).
Proof. split; vm_compute; reflexivity. Qed.

Lemma reformat_orientation_invariant_witness :
  norm [Np (A2 short_13x2)] = norm [Np (A2 (permute10 nat 0 short_13x2))].
Proof.
  apply (reformat_orientation_invariant nat 0 cvt_id short_13x2).
  - apply const_mat_wf.
  - reflexivity.
  - simpl; lia.
  - reflexivity.
  - reflexivity.
Defined.

(** C7 refuted as stated: for T = 13 the (13, T) and (T, 13) presentations of
    the same non-symmetric content normalize to different tensors. *)
Lemma reformat_orientation_counterexample :
  norm [Np (A2 square_13x13)] <> norm [Np (A2 (permute10 nat 0 square_13x13))].
Proof.
  intros H.
  apply (f_equal (fun r => match fst r with
                           | [Tt (A3 m)] => nth 1 (nth 0 (cells m) []) 0
                           | _ => 0
                           end)) in H.
  vm_compute in H. discriminate H.
Qed.

Lemma reformat_square_not_transposed_witness :
  exists out,
    norm [Np (A2 square_13x13)] = ([Tt (A3 out)], None) /\
    nth 1 (nth 0 (cells out) []) 0 = 1.
Proof.
  assert (Hwf : mat_wf nat square_13x13) by (split; [reflexivity | repeat constructor]).
  destruct (reformat_square_not_transposed nat 0 cvt_id square_13x13 (Np (A2 square_13x13))
              eq_refl Hwf eq_refl eq_refl) as [_ (out & Hout & _ & _ & Hnth)].
  exists out. split; [exact Hout|].
  rewrite (Hnth 0 1) by lia. reflexivity.
Defined.

Lemma reformat_not_atomic_witness :
  norm [Np (A2 short_13x2); Np (A2 bad_5x7); Np (A2 short_13x2)] =
    (fst (norm [Np (A2 short_13x2); Np (A2 bad_5x7); Np (A2 short_13x2)]),
     Some (ErrShape [5; 7])) /\
  exists k, k < 3 /\
    nth_error (fst (norm [Np (A2 short_13x2); Np (A2 bad_5x7); Np (A2 short_13x2)])) 2 =
    Some (Np (A2 short_13x2)).
Proof.
  assert (H : norm [Np (A2 short_13x2); Np (A2 bad_5x7); Np (A2 short_13x2)] =
    (fst (norm [Np (A2 short_13x2); Np (A2 bad_5x7); Np (A2 short_13x2)]),
     Some (ErrShape [5; 7]))) by (vm_compute; reflexivity).
  split; [exact H|].
  destruct (reformat_not_atomic nat 0 cvt_id _ _ _ H) as (k & Hk & _ & Hbelow & Habove & Hat).
  exists k. split; [exact Hk|].
  destruct (Nat.lt_ge_cases 2 k) as [Hlt|Hge]; [simpl in Hk; lia|].
  destruct (Nat.eq_dec k 2) as [->|Hne].
  - exfalso. destruct Hat as (x & y & Hx & Hy & Hxy).
    simpl in Hx. inversion Hx; subst. vm_compute in Hxy. discriminate Hxy.
  - rewrite Habove by lia. reflexivity.
Defined.

End NormalizerFacts.

(* ------------------------------------------------------------------ *)
(** ** Classifier *)

Module ClassifierFacts.
Import Classifier.

Lemma tcn_shape_safe :
  run_shape tcn_layers [1; 13; Normalizer.SAFE_SEQ_LENGTH] = inr [1; 512; 1].
Proof. vm_compute. reflexivity. Qed.

Lemma mlp_shape_safe : run_shape mlp_layers (mean_dim2 [1; 512; 1]) = inr [1; 2].
Proof. vm_compute. reflexivity. Qed.

(** C2: the classifier has exactly seven max-pooling stages, each of
    kernel 4 and stride 4, whose factors multiply to 4^7 = SAFE_LENGTH
    = 16384; at that length every stage of the network is defined (the time
    axis ends at length 1, one step shorter and the last pooling stage has
    no valid output); and every element the normalizer leaves on success is
    a (1, 13, 16384) tensor. *)
Theorem safe_length_matches_pooling :
  length (filter is_maxpool tcn_layers) = 7 /\
  Forall (fun ly => is_maxpool ly = true -> ly = MaxPool1d 4 4 0) tcn_layers /\
  fold_right (fun ly acc => pool_factor ly * acc) 1 tcn_layers = 4 ^ 7 /\
  Normalizer.SAFE_SEQ_LENGTH = 4 ^ 7 /\ Normalizer.SAFE_SEQ_LENGTH = 16384 /\
  run_shape tcn_layers [1; 13; Normalizer.SAFE_SEQ_LENGTH] = inr [1; 512; 1] /\
  run_shape tcn_layers [1; 13; Normalizer.SAFE_SEQ_LENGTH - 1] =
    inl (MaxPoolInvalidOutputSize 3) /\
  (forall (V : Type) (zero : V) (cvt : V -> V) (Xs Ys : list (Normalizer.item V)),
     Normalizer.reformat V zero cvt Xs = (Ys, None) ->
     Forall (fun y => exists m, y = Normalizer.Tt (Normalizer.A3 m) /\
               Normalizer.shape (Normalizer.A3 m) = [1; 13; 16384]) Ys).
Proof.
  split; [reflexivity|].
  split; [repeat constructor; discriminate|].
  split; [vm_compute; reflexivity|].
  split; [vm_compute; reflexivity|].
  split; [reflexivity|].
  split; [exact tcn_shape_safe|].
  split; [vm_compute; reflexivity|].
  intros V zero cvt Xs Ys H.
  exact (NormalizerFacts.reformat_success_shape V zero cvt Xs Ys H).
Qed.

(** Tensors of shape (1, 13, 16384) go through the loop of [forward]. *)
Lemma forward_loop_safe_prefix (idx : nat) (pre rest : list (list nat)) :
  Forall (fun s => s = [1; 13; 16384]) pre ->
  forward_loop idx (pre ++ rest) =
  let '(calls, r) := forward_loop (idx + length pre) rest in
  (seq idx (length pre) ++ calls,
   match r with
   | inl e => inl e
   | inr outs => inr (repeat [2] (length pre) ++ outs)
   end).
Proof.
  intros HF. revert idx. induction HF as [|s pre' Hs HF IH]; intros idx.
  - simpl. rewrite Nat.add_0_r.
    destruct (forward_loop idx rest) as [calls [e|outs]]; reflexivity.
  - subst s. cbn [app forward_loop nth_error].
    cbn [Nat.eqb negb].
    replace (16384 =? 16384) with true by (symmetry; apply Nat.eqb_refl).
    cbn [negb].
    rewrite (tcn_shape_safe : run_shape tcn_layers [1; 13; 16384] = inr [1; 512; 1]).
    rewrite mlp_shape_safe.
    rewrite IH. simpl length. rewrite <- Nat.add_succ_comm.
    destruct (forward_loop (S idx + length pre') rest) as [calls [e|outs]];
      reflexivity.
Qed.

Lemma forward_loop_bad_head (idx : nat) (X : list nat) (rest : list (list nat)) (l : nat) :
  nth_error X 2 = Some l -> l <> 16384 ->
  forward_loop idx (X :: rest) = ([], inl (FwdLength l X idx)).
Proof.
  intros Hl Hne. cbn [forward_loop]. rewrite Hl.
  rewrite (proj2 (Nat.eqb_neq l 16384) Hne). reflexivity.
Qed.

(** C5 (as amended): if every tensor before index [k] has the normalized
    shape (1, 13, 16384) and the tensor at [k] has a time axis of length
    [l <> 16384], forward raises the length error carrying [l], that tensor's
    shape and the index [k], having handed only the tensors before [k] to
    the network. *)
Theorem forward_rejects_bad_length (pre post : list (list nat)) (X : list nat) (l : nat)
  (Hpre : Forall (fun s => s = [1; 13; 16384]) pre)
  (Hl : nth_error X 2 = Some l) (Hne : l <> 16384) :
  forward (pre ++ X :: post) = (seq 0 (length pre), inl (FwdLength l X (length pre))).
Proof.
  unfold forward. rewrite (forward_loop_safe_prefix 0 pre (X :: post) Hpre).
  rewrite (forward_loop_bad_head (0 + length pre) X post l Hl Hne).
  rewrite app_nil_r. reflexivity.
Qed.

Lemma forward_rejects_bad_length_witness :
  forward [[1; 13; 16384]; [1; 13; 100]] = ([0], inl (FwdLength 100 [1; 13; 100] 1)).
Proof.
  apply (forward_rejects_bad_length [[1; 13; 16384]] [] [1; 13; 100] 100).
  - repeat constructor.
  - reflexivity.
  - apply Nat.eqb_neq; vm_compute; reflexivity.
Defined.

(** C5 refuted as stated: the second tensor's time axis is 100, but the
    first tensor (12 channels) makes the first convolution raise before the
    length check reaches index 1. *)
Lemma forward_bad_length_counterexample :
  forward [[1; 12; 16384]; [1; 13; 100]] = ([0], inl (FwdRuntime (ConvChannelMismatch 13 12))) /\
  forall l s, snd (forward [[1; 12; 16384]; [1; 13; 100]]) <> inl (FwdLength l s 1).
Proof.
  split.
  - vm_compute. reflexivity.
  - intros l s. vm_compute. discriminate.
Qed.

End ClassifierFacts.

(* ------------------------------------------------------------------ *)
(** ** Inference orchestrator *)

Module OrchestratorFacts.
Import Orchestrator.

(** C8: a prediction runs the classifier's forward computation only with
    gradient tracking off (at most one forward call, logged with grad mode
    [false]), restores the caller's grad mode, and leaves the loaded module,
    its parameters included, unchanged. *)
Theorem predict_no_grad_frame (V : Type) (zero : V) (cvt : V -> V)
  (Params Scores Res : Type)
  (net : Params -> list (Normalizer.item V) -> Classifier.fwd_err + Scores)
  (interp : Scores -> Res) (x : Normalizer.item V) (st : rt_state Params) :
  let '(r, st') := predict V zero cvt Params Scores Res net interp x st in
  model Params st' = model Params st /\
  grad_enabled Params st' = grad_enabled Params st /\
  exists new, fwd_log Params st' = new ++ fwd_log Params st /\
              length new <= 1 /\ Forall (fun g => g = false) new.
Proof.
  unfold predict, bind, reformat_m.
  destruct (Normalizer.reformat V zero cvt [x]) as [ys [e|]].
  - split; [reflexivity|]. split; [reflexivity|].
    exists []. split; [reflexivity|]. split; [simpl; lia | constructor].
  - unfold no_grad, get_scores, set_grad, ret. simpl.
    destruct (net (params Params (model Params st)) ys); simpl;
      (split; [reflexivity|]; split; [reflexivity|];
       exists [false]; split; [reflexivity|]; split; [simpl; lia | repeat constructor]).
Qed.

End OrchestratorFacts.

(* ================================================================== *)
(** * Further properties of the code *)

Module ScoreInterpreterMore.
Import ScoreInterpreter.
Local Open Scope R_scope.






End ScoreInterpreterMore.

(* ------------------------------------------------------------------ *)
Module NormalizerMore.
Import Normalizer.

Lemma reformat_one_error_kind (V : Type) (zero : V) (cvt : V -> V) (x y : item V) (e : err) :
  reformat_one V zero cvt x = (y, Some e) ->
  (exists d s, e = ErrNotTwoD d s) \/ (exists s, e = ErrShape s).
Proof.
  unfold reformat_one.
  destruct (to_f32 V cvt x) as [m|m|sh].
  - destruct (orient V zero m) as [m1|].
    + rewrite NormalizerFacts.pad_or_truncate_ncols, Nat.eqb_refl. cbn [negb]. discriminate.
    + intros H; inversion H; subst. right. eexists; reflexivity.
  - intros H; inversion H; subst. left. do 2 eexists; reflexivity.
  - intros H; inversion H; subst. left. do 2 eexists; reflexivity.
Qed.

(** X4: the only exceptions [reformat] raises are the dimension error and the
    orientation (shape) error: the [assert] on the padded length and the
    final length validation never fire. *)
Theorem reformat_raises_only_input_errors (V : Type) (zero : V) (cvt : V -> V)
  (Xs Ys : list (item V)) (e : err) (H : reformat V zero cvt Xs = (Ys, Some e)) :
  (exists d s, e = ErrNotTwoD d s) \/ (exists s, e = ErrShape s).
Proof.
  destruct (NormalizerFacts.reformat_error V zero cvt Xs Ys e H)
    as (pre & x & post & y & _ & _ & Hx & _).
  exact (reformat_one_error_kind V zero cvt x y e Hx).
Qed.

(** X5: [reformat] never changes the number of elements of the list, whether
    it returns or raises. *)
Theorem reformat_preserves_length (V : Type) (zero : V) (cvt : V -> V) (Xs : list (item V)) :
  length (fst (reformat V zero cvt Xs)) = length Xs.
Proof.
  induction Xs as [|x rest IH]; [reflexivity|]. simpl.
  destruct (reformat_one V zero cvt x) as [y [e|]]; [reflexivity|].
  destruct (reformat V zero cvt rest) as [ys e']. simpl in *. lia.
Qed.

(** X6: [reformat] is not idempotent: running it again on a list it has just
    normalized (non-empty) raises the dimension error at index 0, reporting
    3 axes and the shape (1, 13, SAFE_LENGTH). *)
Theorem reformat_second_pass_raises (V : Type) (zero : V) (cvt : V -> V)
  (Xs Ys : list (item V)) (H : reformat V zero cvt Xs = (Ys, None)) (Hne : Ys <> []) :
  snd (reformat V zero cvt Ys) = Some (ErrNotTwoD 3 [1; 13; SAFE_SEQ_LENGTH]).
Proof.
  pose proof (NormalizerFacts.reformat_success_shape V zero cvt Xs Ys H) as HF.
  destruct Ys as [|y rest]; [contradiction|].
  inversion HF as [|y' rest' [m [-> Hs]] _]; subst.
  simpl in Hs. inversion Hs as [[Hr Hc]].
  simpl. rewrite Hr, Hc. reflexivity.
Qed.

End NormalizerMore.

Module ClassifierMore.
Import Classifier.

Lemma run_shape_app (l1 l2 : list layer) (sh : list nat) :
  run_shape (l1 ++ l2) sh =
  match run_shape l1 sh with inl e => inl e | inr sh' => run_shape l2 sh' end.
Proof.
  revert sh. induction l1 as [|ly l1 IH]; intros sh; [reflexivity|].
  simpl. destruct (layer_shape ly sh); [reflexivity | apply IH].
Qed.

Lemma conv3_shape (n c c' L : nat) :
  1 <= L -> layer_shape (Conv1d c c' 3 1 1) [n; c; L] = inr [n; c'; L].
Proof.
  intros HL. unfold layer_shape. rewrite Nat.eqb_refl. cbn [negb].
  unfold out_len. replace (3 <=? L + 2 * 1) with true by (symmetry; apply Nat.leb_le; lia).
  rewrite Nat.div_1_r. replace (L + 2 * 1 - 3 + 1) with L by lia. reflexivity.
Qed.

Lemma pool4_shape (n c L : nat) :
  layer_shape (MaxPool1d 4 4 0) [n; c; L] =
  if 4 <=? L then inr [n; c; L / 4] else inl (MaxPoolInvalidOutputSize L).
Proof.
  unfold layer_shape, out_len. rewrite Nat.mul_0_r, Nat.add_0_r.
  destruct (Nat.leb_spec 4 L) as [H|H]; [|reflexivity].
  replace L with ((L - 4) + 1 * 4) at 2 by lia.
  rewrite Nat.div_add by lia. reflexivity.
Qed.

Lemma elu_shape (sh : list nat) : layer_shape ELU sh = inr sh.
Proof. reflexivity. Qed.

Lemma stage_run (n c c' L : nat) (rest : list layer) :
  1 <= L ->
  run_shape (stage c c' ++ rest) [n; c; L] =
  if 4 <=? L then run_shape rest [n; c'; L / 4] else inl (MaxPoolInvalidOutputSize L).
Proof.
  intros HL. unfold stage. cbn [app run_shape].
  rewrite (conv3_shape n c c' L HL), (conv3_shape n c' c' L HL).
  cbv iota. rewrite (elu_shape [n; c'; L]). cbv iota. rewrite pool4_shape.
  destruct (4 <=? L); reflexivity.
Qed.

Lemma last_cons_default {A : Type} (x d : A) (l : list A) : last (x :: l) d = last l x.
Proof.
  revert x d. induction l as [|y l IH]; intros x d; [reflexivity|].
  change (last (x :: y :: l) d) with (last (y :: l) d). rewrite !IH. reflexivity.
Qed.

Lemma stages_run (couts : list nat) (c n L : nat) (rest : list layer) :
  1 <= L ->
  (4 ^ length couts <= L ->
   run_shape (stages c couts ++ rest) [n; c; L] =
   run_shape rest [n; last couts c; L / 4 ^ length couts]) /\
  (L < 4 ^ length couts ->
   exists l, 1 <= l < 4 /\
   run_shape (stages c couts ++ rest) [n; c; L] = inl (MaxPoolInvalidOutputSize l)).
Proof.
  revert c L. induction couts as [|c' cs IH]; intros c L HL.
  - cbn [stages length app last]. change (4 ^ 0) with 1.
    rewrite Nat.div_1_r. split; [reflexivity | intros; lia].
  - cbn [stages length]. rewrite <- app_assoc, stage_run by exact HL.
    rewrite Nat.pow_succ_r'. rewrite last_cons_default.
    set (P := 4 ^ length cs).
    assert (HP : 1 <= P) by (unfold P; apply Nat.neq_0_lt_0, Nat.pow_nonzero; lia).
    split.
    + intros HLe.
      replace (4 <=? L) with true by (symmetry; apply Nat.leb_le; lia).
      assert (H1 : 1 <= L / 4) by (apply Nat.div_le_lower_bound; lia).
      assert (H2 : P <= L / 4) by (apply Nat.div_le_lower_bound; lia).
      rewrite (proj1 (IH c' (L / 4) H1) H2).
      rewrite Nat.Div0.div_div. reflexivity.
    + intros HLt. destruct (Nat.leb_spec 4 L) as [H4|H4].
      * assert (H1 : 1 <= L / 4) by (apply Nat.div_le_lower_bound; lia).
        assert (H2 : L / 4 < P) by (apply Nat.Div0.div_lt_upper_bound; lia).
        exact (proj2 (IH c' (L / 4) H1) H2).
      * exists L. split; [lia | reflexivity].
Qed.

Lemma tcn_layers_stages :
  tcn_layers =
  Conv1d 13 32 1 1 0 :: stages 32 [32; 64; 128; 128; 256; 256; 512] ++
  [Conv1d 512 512 3 1 1; Conv1d 512 512 3 1 1; ELU].
Proof. reflexivity. Qed.

(** X7: the convolutional part accepts a 13-channel input of time length [L]
    exactly when [L >= 4^7 = 16384], and then outputs 512 channels of time
    length [L / 16384]; a shorter non-empty input fails in a max-pooling stage
    (on a time axis of length 1 to 3), an empty one in the first convolution. *)
Theorem tcn_accepts_long_inputs (n L : nat) :
  (16384 <= L -> run_shape tcn_layers [n; 13; L] = inr [n; 512; L / 16384]) /\
  (1 <= L < 16384 ->
   exists l, 1 <= l < 4 /\ run_shape tcn_layers [n; 13; L] = inl (MaxPoolInvalidOutputSize l)) /\
  (L = 0 -> run_shape tcn_layers [n; 13; L] = inl (ConvInputTooSmall 0)).
Proof.
  assert (Hfirst : forall L, 1 <= L ->
            layer_shape (Conv1d 13 32 1 1 0) [n; 13; L] = inr [n; 32; L]).
  { intros L0 H0. unfold layer_shape. rewrite Nat.eqb_refl. cbn [negb].
    unfold out_len. rewrite Nat.mul_0_r, Nat.add_0_r.
    replace (1 <=? L0) with true by (symmetry; apply Nat.leb_le; lia).
    rewrite Nat.div_1_r. replace (L0 - 1 + 1) with L0 by lia. reflexivity. }
  change 16384 with (4 ^ length [32; 64; 128; 128; 256; 256; 512]).
  split; [|split].
  - intros HL. rewrite tcn_layers_stages. cbn [run_shape].
    assert (H1 : 1 <= L) by (simpl in HL; lia).
    rewrite (Hfirst L H1).
    rewrite (proj1 (stages_run _ 32 n L _ H1) HL). cbn [last].
    assert (H2 : 1 <= L / 4 ^ 7) by (apply Nat.div_le_lower_bound; simpl in *; lia).
    cbn [length]. cbn [run_shape].
    rewrite (conv3_shape n 512 512 _ H2), (conv3_shape n 512 512 _ H2). reflexivity.
  - intros [H1 HL]. rewrite tcn_layers_stages. cbn [run_shape].
    rewrite (Hfirst L H1).
    exact (proj2 (stages_run _ 32 n L _ H1) HL).
  - intros ->. vm_compute. reflexivity.
Qed.

Lemma forward_loop_ok_lengths (idx : nat) (Xs : list (list nat)) (outs : list (list nat)) :
  snd (forward_loop idx Xs) = inr outs -> Forall (fun X => nth_error X 2 = Some 16384) Xs.
Proof.
  revert idx outs. induction Xs as [|X rest IH]; intros idx outs H; [constructor|].
  cbn [forward_loop] in H.
  destruct (nth_error X 2) as [l|] eqn:Hl; [|discriminate].
  destruct (Nat.eqb_spec l 16384) as [->|Hne]; cbn [negb] in H; [|discriminate].
  destruct (run_shape tcn_layers X) as [[]|sh]; try discriminate.
  destruct (run_shape mlp_layers (mean_dim2 sh)); [discriminate|].
  destruct (forward_loop (S idx) rest) as [calls [e|outs']] eqn:Hr; [discriminate|].
  constructor; [exact Hl|]. apply (IH (S idx) outs'). rewrite Hr. reflexivity.
Qed.

(** X8: [forward_wo_gpool] has no length check: on 13-channel inputs of any
    time lengths [L >= 16384] it returns, for each, 512 channels of length
    [L / 16384], whereas [forward] on the same batch succeeds only when every
    length is exactly 16384. *)
Theorem forward_wo_gpool_accepts_long (n : nat) (Ls : list nat)
  (HLs : Forall (fun L => 16384 <= L) Ls) :
  forward_wo_gpool (map (fun L => [n; 13; L]) Ls) = inr (map (fun L => [n; 512; L / 16384]) Ls) /\
  forall out, snd (forward (map (fun L => [n; 13; L]) Ls)) = inr out ->
              Forall (fun L => L = 16384) Ls.
Proof.
  split.
  - induction HLs as [|L Ls HL HLs IH]; [reflexivity|].
    cbn [map forward_wo_gpool]. rewrite (proj1 (tcn_accepts_long_inputs n L) HL).
    rewrite IH. reflexivity.
  - intros out. unfold forward.
    destruct (forward_loop 0 (map (fun L => [n; 13; L]) Ls)) as [calls [e|outs]] eqn:Hf;
      [discriminate|].
    intros _. assert (Hs : snd (forward_loop 0 (map (fun L => [n; 13; L]) Ls)) = inr outs)
      by (rewrite Hf; reflexivity).
    apply forward_loop_ok_lengths in Hs.
    clear -Hs. induction Ls as [|L Ls IH]; [constructor|].
    inversion Hs as [|X rest HX Hrest]; subst. cbn in HX. inversion HX.
    constructor; [reflexivity | exact (IH Hrest)].
Qed.

Lemma stack_repeat2 (k : nat) :
  stack (repeat [2] k) = if k =? 0 then inl FwdStackEmpty else inr [k; 2].
Proof.
  destruct k as [|k]; [reflexivity|]. cbn [repeat stack Nat.eqb].
  assert (Hall : forall j, forallb (fun s' => if list_eq_dec Nat.eq_dec s' [2] then true else false)
                   (repeat [2] j) = true).
  { induction j as [|j IH]; [reflexivity|]. simpl. rewrite IH.
    destruct (list_eq_dec Nat.eq_dec [2] [2]); [reflexivity | contradiction]. }
  rewrite Hall. cbn [length]. rewrite repeat_length. reflexivity.
Qed.

(** X9: normalizing then classifying composes without error: if [reformat]
    succeeds on [n] elements, [forward] on the resulting tensors hands
    indices 0..n-1 to the network and returns logits of shape (n, 2); for an
    empty list it raises in [torch.stack]. *)
Theorem normalized_batch_forward (V : Type) (zero : V) (cvt : V -> V)
  (Xs Ys : list (Normalizer.item V)) (H : Normalizer.reformat V zero cvt Xs = (Ys, None)) :
  forward (map (fun y => Normalizer.shape (Normalizer.item_arr V y)) Ys) =
  (seq 0 (length Xs),
   if length Xs =? 0 then inl FwdStackEmpty else inr [length Xs; 2]).
Proof.
  assert (Hlen : length Ys = length Xs).
  { apply NormalizerFacts.reformat_ok_iff in H. symmetry. exact (Forall2_length H). }
  pose proof (NormalizerFacts.reformat_success_shape V zero cvt Xs Ys H) as HF.
  assert (HS : Forall (fun s => s = [1; 13; 16384])
                 (map (fun y => Normalizer.shape (Normalizer.item_arr V y)) Ys)).
  { apply Forall_map. eapply Forall_impl; [|exact HF].
    intros y [m [-> Hs]]. exact Hs. }
  unfold forward.
  pose proof (ClassifierFacts.forward_loop_safe_prefix 0 _ [] HS) as E.
  rewrite app_nil_r in E. rewrite E. cbn [forward_loop].
  rewrite app_nil_r, length_map, Hlen, app_nil_r, stack_repeat2. reflexivity.
Qed.

End ClassifierMore.

(* ------------------------------------------------------------------ *)
Module OrchestratorMore.
Import Orchestrator.


(** X11: on success, the [mfcc_features_shape] reported in the response is
    the shape of the raw 2-D feature matrix, not the shape (1, 13,
    SAFE_LENGTH) of the tensor [reformat] put in its place and the network
    was given. *)
Theorem predict_response_reports_raw_shape (V : Type) (zero : V) (cvt : V -> V)
  (Params Scores Res : Type)
  (net : Params -> list (Normalizer.item V) -> Classifier.fwd_err + Scores)
  (interp : Scores -> Res) (x : Normalizer.item V) (st st' : rt_state Params)
  (r : Res) (sh : list nat)
  (H : predict_response V zero cvt Params Scores Res net interp x st = (inr (r, sh), st')) :
  sh = Normalizer.shape (Normalizer.item_arr V x) /\ length sh = 2 /\
  exists y, Normalizer.reformat V zero cvt [x] = ([y], None) /\
    Normalizer.shape (Normalizer.item_arr V y) = [1; 13; Normalizer.SAFE_SEQ_LENGTH] /\
    sh <> Normalizer.shape (Normalizer.item_arr V y).
Proof.
  unfold predict_response, predict, bind, reformat_m in H.
  destruct (Normalizer.reformat V zero cvt [x]) as [ys [e|]] eqn:Hr; [discriminate|].
  unfold no_grad, get_scores, set_grad, ret in H. cbn in H.
  destruct (net (params Params (model Params st)) ys); [discriminate|].
  inversion H; subst sh. clear H.
  pose proof Hr as Hok. apply NormalizerFacts.reformat_ok_iff in Hok.
  inversion Hok as [|x' y xs' ys' Hxy Hnil]; subst. inversion Hnil; subst.
  destruct (NormalizerFacts.reformat_one_none V zero cvt x y Hxy) as (m & Hx & _ & Hy).
  pose proof (NormalizerFacts.reformat_success_shape V zero cvt [x] [y] Hr) as HF.
  inversion HF as [|y0 r0 [m' [Hy' Hs']] _]; subst.
  rewrite Hx. split; [reflexivity|]. split; [reflexivity|].
  injection Hy' as Hm. subst m'.
  eexists. split; [reflexivity|].
  split; [exact Hs'|]. cbn [Normalizer.item_arr]. rewrite Hs'. discriminate.
Qed.

End OrchestratorMore.

(* ------------------------------------------------------------------ *)
Module PyStrFacts.
Import PyStr.

Lemma ceqb_spec (a b : Ascii.ascii) : ceqb a b = true <-> a = b.
Proof. unfold ceqb. destruct (Ascii.ascii_dec a b); split; congruence. Qed.

Lemma eqb_spec (s t : str) : eqb s t = true <-> s = t.
Proof. unfold eqb. destruct (list_eq_dec Ascii.ascii_dec s t); split; congruence. Qed.

Lemma eqb_refl (s : str) : eqb s s = true.
Proof. apply eqb_spec. reflexivity. Qed.

Lemma startswith_spec (s pre : str) : startswith s pre = true <-> exists t, s = pre ++ t.
Proof.
  revert s. induction pre as [|c pre IH]; intros s.
  - split; [intros _; exists s; reflexivity | destruct s; reflexivity].
  - destruct s as [|d s]; simpl.
    + split; [discriminate | intros [t Ht]; discriminate].
    + rewrite andb_true_iff, ceqb_spec, IH. split.
      * intros [-> [t ->]]. exists t. reflexivity.
      * intros [t Ht]. inversion Ht; subst. split; [reflexivity | exists t; reflexivity].
Qed.

Lemma startswith_app (pre t : str) : startswith (pre ++ t) pre = true.
Proof. apply startswith_spec. exists t. reflexivity. Qed.

Lemma endswith_spec (s suf : str) : endswith s suf = true <-> exists t, s = t ++ suf.
Proof.
  induction s as [|c s IH]; simpl.
  - rewrite orb_false_r, eqb_spec. split.
    + intros <-. exists []. reflexivity.
    + intros [t Ht]. destruct t; [exact Ht | discriminate].
  - rewrite orb_true_iff, eqb_spec, IH. split.
    + intros [<-|[t ->]]; [exists []; reflexivity | exists (c :: t); reflexivity].
    + intros [[|d t] Ht]; [left; exact Ht|].
      inversion Ht; subst. right. exists t. reflexivity.
Qed.

Lemma contains_spec (s sub : str) : contains s sub = true <-> exists a b, s = a ++ sub ++ b.
Proof.
  induction s as [|c s IH].
  - simpl. destruct sub as [|c sub]; simpl.
    + split; [intros _; exists [], []; reflexivity | reflexivity].
    + split; [discriminate|]. intros [[|d a] [b Hab]]; discriminate.
  - change (contains (c :: s) sub) with (startswith (c :: s) sub || contains s sub).
    rewrite orb_true_iff, IH, startswith_spec. split.
    + intros [[t Ht]|[a [b ->]]].
      * exists [], t. exact Ht.
      * exists (c :: a), b. reflexivity.
    + intros [[|d a] [b Hab]].
      * left. exists b. exact Hab.
      * inversion Hab; subst. right. exists a, b. reflexivity.
Qed.

Lemma rfind_app (c : Ascii.ascii) (s t : str) :
  rfind c (s ++ t) = match rfind c t with Some i => Some (length s + i) | None => rfind c s end.
Proof.
  induction s as [|d s IH]; simpl.
  - destruct (rfind c t); reflexivity.
  - rewrite IH. destruct (rfind c t); reflexivity.
Qed.

Lemma rfind_none (c : Ascii.ascii) (s : str) : rfind c s = None <-> ~ In c s.
Proof.
  induction s as [|d s IH]; simpl; [split; auto|].
  destruct (rfind c s) as [i|] eqn:Hr.
  - split; [discriminate|]. intros Hn. exfalso.
    assert (Hs : In c s).
    { destruct (in_dec Ascii.ascii_dec c s) as [Hi|Hi]; [exact Hi|].
      apply IH in Hi. discriminate. }
    apply Hn. right. exact Hs.
  - destruct (ceqb d c) eqn:E.
    + apply ceqb_spec in E. subst. split; [discriminate | intros Hn; exfalso; auto].
    + split; [|reflexivity]. intros _ [Hd|Hi].
      * subst. unfold ceqb in E. destruct (Ascii.ascii_dec c c); congruence.
      * apply (proj1 IH eq_refl), Hi.
Qed.

(** Lowercasing leaves the dot and the slash, and only them, in place. *)
Lemma lower_char_dot (c : Ascii.ascii) : ceqb (lower_char c) "."%char = ceqb c "."%char.
Proof. destruct c as [[] [] [] [] [] [] [] []]; reflexivity. Qed.

Lemma lower_char_slash (c : Ascii.ascii) : ceqb (lower_char c) "/"%char = ceqb c "/"%char.
Proof. destruct c as [[] [] [] [] [] [] [] []]; reflexivity. Qed.

Lemma rfind_lower (c : Ascii.ascii) (s : str) :
  (forall d, ceqb (lower_char d) c = ceqb d c) -> rfind c (lower s) = rfind c s.
Proof.
  intros Hc. induction s as [|d s IH]; [reflexivity|].
  unfold lower in *. simpl. rewrite IH, Hc. reflexivity.
Qed.

Lemma mem_spec (x : str) (l : list str) : SysPath.mem x l = true <-> In x l.
Proof.
  unfold SysPath.mem. rewrite existsb_exists. split.
  - intros [y [Hy E]]. apply eqb_spec in E. subst. exact Hy.
  - intros Hx. exists x. split; [exact Hx | apply eqb_refl].
Qed.

End PyStrFacts.

(* ------------------------------------------------------------------ *)
Module SysPathFacts.
Import PyStr SysPath PyStrFacts.

(** X12: after the import-path set-up, [current_dir] is on [sys.path]; every
    original entry not containing "src" is still there; and every entry
    other than [current_dir] and [azrt2021_dir] is an original entry which,
    if it contains "src", ends neither in "src" nor in "src/" and contains
    [current_dir] or is contained in it. *)
Theorem setup_path_spec (current_dir azrt2021_dir : str) (azrt_exists : bool)
  (sys_path : list str) :
  let res := setup_path current_dir azrt2021_dir azrt_exists sys_path in
  In current_dir res /\
  (forall p, In p sys_path -> contains p (lit "src") = false -> In p res) /\
  (forall p, In p res -> p <> current_dir -> p <> azrt2021_dir ->
     In p sys_path /\
     (contains p (lit "src") = true ->
        endswith p (lit "src") = false /\ endswith p (lit "src/") = false /\
        (contains p current_dir || contains current_dir p) = true)).
Proof.
  cbv zeta. unfold setup_path.
  set (p1 := filter_path current_dir sys_path).
  set (p2 := if negb (mem current_dir p1) then current_dir :: p1 else p1).
  assert (Hp2 : forall p, In p p2 <-> p = current_dir \/ In p p1).
  { intros p. unfold p2. destruct (mem current_dir p1) eqn:Hm; simpl.
    - apply mem_spec in Hm. split; [intros H; right; exact H|].
      intros [->|H]; [exact Hm | exact H].
    - split; intros [H|H]; auto. }
  assert (Hres : forall p,
            In p (if negb (mem azrt2021_dir p2) && azrt_exists then azrt2021_dir :: p2 else p2)
            <-> (p = azrt2021_dir /\ negb (mem azrt2021_dir p2) && azrt_exists = true) \/ In p p2).
  { intros p. destruct (negb (mem azrt2021_dir p2) && azrt_exists); simpl.
    - split; [intros [<-|H]; auto | intros [[-> _]|H]; auto].
    - split; [intros H; right; exact H | intros [[_ H]|H]; [discriminate | exact H]]. }
  split; [|split].
  - apply Hres. right. apply Hp2. left. reflexivity.
  - intros p Hp Hsrc. apply Hres. right. apply Hp2. right.
    unfold p1, filter_path. apply filter_In. split; [exact Hp|].
    unfold keep. rewrite Hsrc. destruct (eqb p current_dir); reflexivity.
  - intros p Hp Hc Ha. apply Hres in Hp. destruct Hp as [[H _]|Hp]; [contradiction|].
    apply Hp2 in Hp. destruct Hp as [H|Hp]; [contradiction|].
    unfold p1, filter_path in Hp. apply filter_In in Hp. destruct Hp as [Hin Hk].
    split; [exact Hin|]. intros Hsrc. unfold keep in Hk.
    destruct (eqb p current_dir) eqn:E; [apply eqb_spec in E; contradiction|].
    rewrite Hsrc in Hk. cbn [negb] in Hk.
    destruct (endswith p (lit "src")), (endswith p (lit "src/")); cbn in Hk;
      try discriminate.
    split; [reflexivity | split; [reflexivity | exact Hk]].
Qed.

End SysPathFacts.

(* ------------------------------------------------------------------ *)
Module UploadFacts.
Import PyStr PyPath Upload PyStrFacts.

Lemma allowed_shape :
  forallb (fun e => match rfind "."%char e with
                    | Some 0 => 2 <=? length e
                    | _ => false
                    end) allowed_extensions = true.
Proof. vm_compute. reflexivity. Qed.

Lemma allowed_dot (e : str) :
  In e allowed_extensions -> rfind "."%char e = Some 0 /\ 2 <= length e.
Proof.
  intros He. pose proof (proj1 (forallb_forall _ _) allowed_shape e He) as H.
  cbv beta in H. destruct (rfind "."%char e) as [[|i]|]; try discriminate.
  split; [reflexivity | apply Nat.leb_le, H].
Qed.

Lemma suffix_lower (n : str) : suffix (lower n) = lower (suffix n).
Proof.
  unfold suffix. rewrite (rfind_lower _ n lower_char_dot).
  unfold lower. rewrite length_map.
  destruct (rfind "."%char n) as [i|]; [|reflexivity].
  destruct ((0 <? i) && (i <? length n - 1)); [|reflexivity].
  apply skipn_map.
Qed.

Lemma suffix_allowed (m e : str) :
  In e allowed_extensions -> (suffix m = e <-> exists stem, stem <> [] /\ m = stem ++ e).
Proof.
  intros He. destruct (allowed_dot e He) as [Hdot Hlen]. split.
  - unfold suffix. destruct (rfind "."%char m) as [i|]; [|intros <-; simpl in Hlen; lia].
    destruct (Nat.ltb_spec 0 i), (Nat.ltb_spec i (length m - 1)); cbn [andb];
      try (intros <-; simpl in Hlen; lia).
    intros Hs. exists (firstn i m). split.
    + intros Hf. apply (f_equal (@length _)) in Hf.
      rewrite length_firstn in Hf. simpl in Hf. lia.
    + rewrite <- Hs. symmetry. apply firstn_skipn.
  - intros [stem [Hst ->]]. unfold suffix.
    rewrite rfind_app, Hdot, Nat.add_0_r, length_app.
    destruct stem as [|c stem']; [contradiction|].
    replace ((0 <? length (c :: stem')) && (length (c :: stem') <? length (c :: stem') + length e - 1))
      with true by (symmetry; apply andb_true_iff; split; apply Nat.ltb_lt; simpl in *; lia).
    rewrite skipn_app, skipn_all2 by lia. rewrite Nat.sub_diag. reflexivity.
Qed.

(** X13: an upload is accepted exactly when the final component of its file
    name, lowercased, is a non-empty stem followed by one of ".mp3", ".wav",
    ".flac", ".m4a", ".ogg", ".aac"; so the check ignores case and earlier
    dots, and refuses a name that is only an extension, such as ".mp3". *)
Theorem upload_ok_spec (filename : str) :
  upload_ok filename = true <->
  exists stem ext, In ext allowed_extensions /\ stem <> [] /\
                   lower (name (parse filename)) = stem ++ ext.
Proof.
  unfold upload_ok, file_extension. rewrite existsb_exists. split.
  - intros [e [He E]]. apply eqb_spec in E.
    rewrite <- suffix_lower in E.
    apply (suffix_allowed _ _ He) in E. destruct E as [stem [Hs E]].
    exists stem, e. auto.
  - intros [stem [e [He [Hs E]]]]. exists e. split; [exact He|].
    apply eqb_spec. rewrite <- suffix_lower.
    apply (suffix_allowed _ _ He). exists stem. auto.
Qed.

End UploadFacts.

(* ------------------------------------------------------------------ *)
Module AuthFacts.
Import PyStr Auth PyStrFacts.

(** X14: the forwarded Authorization header always starts with "Bearer ";
    normalizing it twice is the same as once (a value already starting with
    "Bearer " is passed unchanged); and no header is sent exactly when none,
    or an empty one, was given. *)
Theorem auth_header_spec (authorization : option str) :
  (forall h, auth_header authorization = Some h -> startswith h (lit "Bearer ") = true) /\
  auth_header (auth_header authorization) = auth_header authorization /\
  (auth_header authorization = None <-> authorization = None \/ authorization = Some []).
Proof.
  destruct authorization as [a|]; [|split; [discriminate | split; [reflexivity | tauto]]].
  unfold auth_header.
  destruct (eqb a []) eqn:E; cbn [negb].
  - apply eqb_spec in E. subst a.
    split; [discriminate | split; [reflexivity | tauto]].
  - destruct (startswith a (lit "Bearer ")) eqn:B.
    + rewrite E, B. split; [intros h Hh; inversion Hh; subst; exact B|].
      split; [reflexivity|]. split; [discriminate|].
      intros [H|H]; inversion H; subst. rewrite eqb_refl in E. discriminate.
    + assert (E' : eqb (lit "Bearer " ++ a) [] = false) by reflexivity.
      rewrite E', startswith_app. cbn [negb].
      split; [intros h Hh; injection Hh as <-; exact (startswith_app (lit "Bearer ") a)|].
      split; [reflexivity|]. split; [discriminate|].
      intros [H|H]; inversion H; subst. rewrite eqb_refl in E. discriminate.
Qed.

End AuthFacts.

(* ------------------------------------------------------------------ *)
Module ModelFileFacts.
Import PyStr PyPath ModelFile PyStrFacts.

Lemma insert_desc_nonempty (x : str * nat) (l : list (str * nat)) : insert_desc x l <> [].
Proof. destruct l as [|y l]; simpl; [discriminate|]. destruct (snd x <? snd y); discriminate. Qed.

Lemma sort_desc_nil (l : list (str * nat)) : sort_desc l = [] -> l = [].
Proof. destruct l as [|x l]; simpl; [reflexivity|]. intros H. exfalso. exact (insert_desc_nonempty _ _ H). Qed.

(** The head of the sorted list is the first entry of largest key. *)
Lemma sort_desc_head (l : list (str * nat)) (h : str * nat) (rest : list (str * nat)) :
  sort_desc l = h :: rest ->
  exists pre post, l = pre ++ h :: post /\
    Forall (fun q => snd q < snd h) pre /\ Forall (fun q => snd q <= snd h) l.
Proof.
  revert h rest. induction l as [|x l IH]; intros h rest Hs; [discriminate|].
  simpl in Hs. destruct (sort_desc l) as [|h' r] eqn:Hl.
  - apply sort_desc_nil in Hl. subst l. simpl in Hs. injection Hs as <- <-.
    exists [], []. split; [reflexivity|]. split; [constructor|].
    constructor; [lia | constructor].
  - destruct (IH h' r eq_refl) as [pre [post [E [Hpre Hall]]]].
    simpl in Hs. destruct (Nat.ltb_spec (snd x) (snd h')) as [Lt|Ge].
    + injection Hs as <- _. exists (x :: pre), post. split; [rewrite E; reflexivity|].
      split; [constructor; assumption|]. constructor; [lia | exact Hall].
    + injection Hs as <- _. exists [], l. split; [reflexivity|]. split; [constructor|].
      constructor; [lia|]. eapply Forall_impl; [|exact Hall]. cbv beta. intros q Hq. lia.
Qed.

Lemma in_pt_files (walk : list (str * str * nat)) (q : str * nat) :
  In q (pt_files walk) <->
  exists root file, In (root, file, snd q) walk /\ candidate file = true /\ fst q = join root file.
Proof.
  unfold pt_files. rewrite in_map_iff. split.
  - intros [[[root file] t] [Eq Hin]]. apply filter_In in Hin. destruct Hin as [Hin Hc].
    subst q. exists root, file. auto.
  - intros [root [file [Hin [Hc Hf]]]]. exists (root, file, snd q). split.
    + destruct q; simpl in *; subst; reflexivity.
    + apply filter_In. auto.
Qed.

Lemma pt_files_nil (walk : list (str * str * nat)) :
  pt_files walk = [] <-> forall root file t, In (root, file, t) walk -> candidate file = false.
Proof.
  split.
  - intros H root file t Hin. destruct (candidate file) eqn:Hc; [|reflexivity].
    assert (Hq : In (join root file, t) (pt_files walk)) by (apply in_pt_files; eauto).
    rewrite H in Hq. destruct Hq.
  - intros H. destruct (pt_files walk) as [|q l] eqn:E; [reflexivity|].
    assert (Hq : In q (pt_files walk)) by (rewrite E; left; reflexivity).
    apply in_pt_files in Hq. destruct Hq as [root [file [Hin [Hc _]]]].
    rewrite (H _ _ _ Hin) in Hc. discriminate.
Qed.

Lemma resolve_inr_check env mp download isfile dir_exists walk q :
  resolve_model_path env mp download isfile dir_exists walk = inr q ->
  startswith q (lit "http") = true \/ isfile q = true.
Proof.
  unfold resolve_model_path.
  destruct (match _ with Some s => _ | None => inr None end) as [e|m]; [discriminate|].
  destruct (match m with None => _ | Some s => _ end) as [e|s]; [discriminate|].
  destruct (startswith s (lit "http")) eqn:H1, (isfile s) eqn:H2; cbn;
    intros Hq; try discriminate; injection Hq as <-; auto.
Qed.


Lemma find_local_in de walk p : find_local de walk = inr p -> de = true /\ exists t, In (p, t) (pt_files walk).
Proof.
  unfold find_local. destruct de; [|discriminate].
  destruct (sort_desc (pt_files walk)) as [|[p' t] r] eqn:Hs; [discriminate|].
  intros Hp; injection Hp as <-. split; [reflexivity|]. exists t.
  destruct (sort_desc_head _ _ _ Hs) as [pre [post [E _]]]. rewrite E. apply in_or_app. right. left. reflexivity.
Qed.

Lemma resolve_origin env mp download isfile dir_exists walk q :
  resolve_model_path env mp download isfile dir_exists walk = inr q ->
  env = Some q \/ mp = Some q \/ (exists u, download u = Some q) \/ exists t, In (q, t) (pt_files walk).
Proof.
  unfold resolve_model_path. cbv zeta.
  set (mp1 := match env with Some u => if negb (eqb u []) then Some u else mp | None => mp end).
  assert (Hm1 : forall s, mp1 = Some s -> env = Some s \/ mp = Some s).
  { intros s. unfold mp1. destruct env as [u|]; [destruct (negb (eqb u []))|]; auto. }
  clearbody mp1.
  destruct mp1 as [s|].
  - destruct (negb (eqb s []) && (startswith s (lit "http://") || startswith s (lit "https://"))).
    + destruct (download s) as [tmp|] eqn:Hd; [|discriminate].
      destruct (negb (startswith tmp (lit "http")) && negb (isfile tmp)).
      * destruct (find_local dir_exists walk) as [e|p] eqn:Hf; [discriminate|].
        destruct (negb (startswith p (lit "http")) && negb (isfile p)); [discriminate|].
        intros Hq; injection Hq as <-. apply find_local_in in Hf. tauto.
      * destruct (negb (startswith tmp (lit "http")) && negb (isfile tmp)); [discriminate|].
        intros Hq; injection Hq as <-. right; right; left. exists s. exact Hd.
    + destruct (negb (startswith s (lit "http")) && negb (isfile s)).
      * destruct (find_local dir_exists walk) as [e|p] eqn:Hf; [discriminate|].
        destruct (negb (startswith p (lit "http")) && negb (isfile p)); [discriminate|].
        intros Hq; injection Hq as <-. apply find_local_in in Hf. tauto.
      * destruct (negb (startswith s (lit "http")) && negb (isfile s)); [discriminate|].
        intros Hq; injection Hq as <-. destruct (Hm1 s eq_refl); tauto.
  - destruct (find_local dir_exists walk) as [e|p] eqn:Hf; [discriminate|].
    destruct (negb (startswith p (lit "http")) && negb (isfile p)); [discriminate|].
    intros Hq; injection Hq as <-. apply find_local_in in Hf. tauto.
Qed.

(** X15: the local search, when it succeeds, returns the path of a walked
    ".pt" file without "tmp" in its name whose modification time is the
    largest, and among files of equal largest time the first one visited. *)
Theorem find_local_newest (dir_exists : bool) (walk : list (str * str * nat)) (p : str)
  (H : find_local dir_exists walk = inr p) :
  dir_exists = true /\
  exists pre t post,
    pt_files walk = pre ++ (p, t) :: post /\
    Forall (fun q => snd q < t) pre /\
    Forall (fun q => snd q <= t) (pt_files walk) /\
    exists root file, In (root, file, t) walk /\ candidate file = true /\ p = join root file.
Proof.
  unfold find_local in H. destruct dir_exists; [|discriminate]. split; [reflexivity|].
  destruct (sort_desc (pt_files walk)) as [|[p' t] r] eqn:Hs; [discriminate|].
  injection H as <-.
  destruct (sort_desc_head _ _ _ Hs) as [pre [post [E [Hpre Hall]]]].
  exists pre, t, post. split; [exact E|]. split; [exact Hpre|]. split; [exact Hall|].
  assert (Hin : In (p', t) (pt_files walk)) by (rewrite E; apply in_or_app; right; left; reflexivity).
  apply in_pt_files in Hin. destruct Hin as [root [file [Hw [Hc Hf]]]].
  exists root, file. auto.
Qed.

(** X16: the local search fails with "Model directory not found" exactly when
    the directory is missing, and with "No trained model found" exactly when
    it exists but no walked file ends in ".pt" without containing "tmp". *)
Theorem find_local_errors (dir_exists : bool) (walk : list (str * str * nat)) :
  (find_local dir_exists walk = inl ModelDirNotFound <-> dir_exists = false) /\
  (find_local dir_exists walk = inl NoTrainedModel <->
     dir_exists = true /\ forall root file t, In (root, file, t) walk -> candidate file = false).
Proof.
  unfold find_local. destruct dir_exists.
  - destruct (sort_desc (pt_files walk)) as [|[p t] r] eqn:Hs.
    + apply sort_desc_nil in Hs. rewrite pt_files_nil in Hs.
      split; split; try discriminate; auto.
    + split; split; try discriminate.
      intros [_ Hn]. rewrite <- pt_files_nil in Hn. rewrite Hn in Hs. discriminate.
  - split; split; try discriminate; auto. intros [Ht _]; discriminate.
Qed.

(** X17: a non-empty MODEL_URL overrides the model path argument, and an empty
    one is ignored. *)
Theorem resolve_env_priority (u : str) (model_path : option str) download isfile dir_exists walk
  (Hu : u <> []) :
  resolve_model_path (Some u) model_path download isfile dir_exists walk =
  resolve_model_path None (Some u) download isfile dir_exists walk /\
  resolve_model_path (Some []) model_path download isfile dir_exists walk =
  resolve_model_path None model_path download isfile dir_exists walk.
Proof.
  unfold resolve_model_path.
  destruct (eqb u []) eqn:E; [apply eqb_spec in E; contradiction|].
  split; [cbn -[eqb startswith lit find_local]; rewrite E; reflexivity|].
  rewrite eqb_refl. reflexivity.
Qed.

(** X18: a path starting with "http://" or "https://" is downloaded: a failed
    download raises "Failed to download model from URL", and a successful one
    into an existing file resolves to that file. *)
Theorem resolve_url (s : str) download isfile dir_exists walk
  (Hs : startswith s (lit "http://") || startswith s (lit "https://") = true) :
  (download s = None ->
     resolve_model_path None (Some s) download isfile dir_exists walk = inl (DownloadFailed s)) /\
  (forall tmp, download s = Some tmp -> isfile tmp = true ->
     resolve_model_path None (Some s) download isfile dir_exists walk = inr tmp).
Proof.
  assert (Hne : eqb s [] = false).
  { destruct (eqb s []) eqn:E; [|reflexivity]. apply eqb_spec in E. subst s. discriminate. }
  unfold resolve_model_path. rewrite Hne, Hs. cbn [negb andb].
  split.
  - intros Hd. rewrite Hd. reflexivity.
  - intros tmp Hd Hf. rewrite Hd, Hf, andb_false_r.
    cbn -[startswith lit find_local]. rewrite Hf, andb_false_r. reflexivity.
Qed.

(** X19: a path not starting with "http://" or "https://" is used as given
    when it exists as a file, and also, without any check, when it starts
    with "http"; otherwise the call behaves as if no path had been given. *)
Theorem resolve_local_path (s : str) download isfile dir_exists walk
  (H1 : startswith s (lit "http://") = false) (H2 : startswith s (lit "https://") = false) :
  resolve_model_path None (Some s) download isfile dir_exists walk =
  if startswith s (lit "http") || isfile s then inr s
  else resolve_model_path None None download isfile dir_exists walk.
Proof.
  unfold resolve_model_path. rewrite H1, H2, andb_false_r.
  destruct (startswith s (lit "http")) eqn:A, (isfile s) eqn:B;
    cbn -[startswith lit find_local]; rewrite ?A, ?B; reflexivity.
Qed.

(** X20: every path the resolution returns starts with "http" or is an
    existing file, and it is the MODEL_URL value, the given path, a
    downloaded file or one of the candidate files of the local search. *)
Theorem resolve_result (env model_path : option str) download isfile dir_exists walk (q : str)
  (H : resolve_model_path env model_path download isfile dir_exists walk = inr q) :
  (startswith q (lit "http") = true \/ isfile q = true) /\
  (env = Some q \/ model_path = Some q \/ (exists u, download u = Some q) \/
   exists t, In (q, t) (pt_files walk)).
Proof.
  split; [exact (resolve_inr_check _ _ _ _ _ _ _ H) | exact (resolve_origin _ _ _ _ _ _ _ H)].
Qed.

End ModelFileFacts.

(* ------------------------------------------------------------------ *)
Module PersonsFacts.
Import PyStr PyPath Persons PyStrFacts.

Lemma path_eqb_spec (p q : list str) : path_eqb p q = true <-> p = q.
Proof. unfold path_eqb. destruct (list_eq_dec (list_eq_dec Ascii.ascii_dec) p q); split; congruence. Qed.

Lemma parent_snoc (D : list str) (x : str) : parent (D ++ [x]) = D.
Proof. apply removelast_last. Qed.

Lemma name_snoc (D : list str) (x : str) : name (D ++ [x]) = x.
Proof. apply last_last. Qed.

Lemma eqb_false (s t : str) : s <> t -> eqb s t = false.
Proof. intros H. destruct (eqb s t) eqn:E; [apply eqb_spec in E; contradiction | reflexivity]. Qed.

Lemma path_eqb_false (p q : list str) : p <> q -> path_eqb p q = false.
Proof. intros H. destruct (path_eqb p q) eqn:E; [apply path_eqb_spec in E; contradiction | reflexivity]. Qed.

Lemma snoc_neq (D : list str) (l : list str) : l <> [] -> D ++ l <> D.
Proof.
  intros Hl E. apply (f_equal (@length _)) in E. rewrite length_app in E.
  destruct l; [contradiction | simpl in E; lia].
Qed.

(** X21: under the data directory D, a file D/p/x and a file D/p/data/x are
    filed under the person p (for p neither the name of D nor "data"), and a
    file D/data/x under the part of its stem before the first "_". *)
Theorem person_name_layouts (D : list str) (p x : str)
  (Hp1 : p <> name D) (Hp2 : p <> lit "data") :
  person_name D (D ++ [p; x]) = p /\
  person_name D (D ++ [p; lit "data"; x]) = p /\
  person_name D (D ++ [lit "data"; x]) = hd [] (split "_"%char (stem x)).
Proof.
  unfold person_name. split; [|split].
  - replace (D ++ [p; x]) with ((D ++ [p]) ++ [x]) by (rewrite <- app_assoc; reflexivity).
    rewrite parent_snoc, name_snoc, (eqb_false _ _ Hp1), (eqb_false _ _ Hp2). reflexivity.
  - replace (D ++ [p; lit "data"; x]) with (((D ++ [p]) ++ [lit "data"]) ++ [x])
      by (rewrite <- !app_assoc; reflexivity).
    rewrite !parent_snoc, name_snoc, (eqb_refl (lit "data")), orb_true_r.
    rewrite (path_eqb_false _ _ (snoc_neq D [p] ltac:(discriminate))), name_snoc. reflexivity.
  - replace (D ++ [lit "data"; x]) with ((D ++ [lit "data"]) ++ [x])
      by (rewrite <- app_assoc; reflexivity).
    rewrite !parent_snoc, !name_snoc, (eqb_refl (lit "data")), orb_true_r.
    destruct (path_eqb D D) eqn:E; [reflexivity|].
    exfalso. assert (H : D = D) by reflexivity. apply path_eqb_spec in H. congruence.
Qed.

(** X22: a file lying directly in a non-empty data directory D is not filed
    under its stem but under the name of D's parent directory ("" when D has
    a single component). *)
Theorem person_name_direct (D : list str) (x : str) (HD : D <> []) :
  person_name D (D ++ [x]) = name (removelast D).
Proof.
  unfold person_name. rewrite parent_snoc, eqb_refl. cbn [orb].
  rewrite path_eqb_false; [reflexivity|].
  destruct (exists_last HD) as [D' [d ->]]. rewrite parent_snoc.
  intros E. apply (f_equal (@length _)) in E. rewrite length_app in E. simpl in E. lia.
Qed.

(** The character map of [person_id]: [' '] and ['/'] to ['_'], then upper
    case; it fixes digits and creates none. *)
Lemma id_char_digit (c : Ascii.ascii) :
  is_digit (upper_char (if ceqb (if ceqb c " "%char then "_"%char else c) "/"%char then "_"%char
                        else (if ceqb c " "%char then "_"%char else c))) = is_digit c.
Proof. destruct c as [[] [] [] [] [] [] [] []]; reflexivity. Qed.

Lemma id_char_fix (c : Ascii.ascii) :
  negb (is_digit c) ||
  Ascii.eqb (upper_char (if ceqb (if ceqb c " "%char then "_"%char else c) "/"%char then "_"%char
                         else (if ceqb c " "%char then "_"%char else c))) c = true.
Proof. destruct c as [[] [] [] [] [] [] [] []]; reflexivity. Qed.

Lemma digit_not_sign (c : Ascii.ascii) :
  negb (is_digit c) || negb (ceqb c "+"%char || ceqb c "-"%char) = true.
Proof. destruct c as [[] [] [] [] [] [] [] []]; reflexivity. Qed.

Lemma first_digits_map (f : Ascii.ascii -> Ascii.ascii) (s : str) :
  (forall c, is_digit (f c) = is_digit c) ->
  (forall c, is_digit c = true -> f c = c) ->
  first_digits (map f s) = first_digits s.
Proof.
  intros Hd Hf.
  assert (Hrun : forall s, digit_run (map f s) = digit_run s).
  { induction s0 as [|c s0 IH]; [reflexivity|]. simpl. rewrite Hd.
    destruct (is_digit c) eqn:E; [rewrite (Hf c E), IH|]; reflexivity. }
  induction s as [|c s IH]; [reflexivity|]. cbn [map first_digits]. rewrite Hd.
  destruct (is_digit c) eqn:E; [|exact IH].
  change (f c :: map f s) with (map f (c :: s)). rewrite Hrun. reflexivity.
Qed.

Lemma first_digits_shape (s r : str) :
  first_digits s = Some r -> r <> [] /\ forallb is_digit r = true.
Proof.
  assert (Hrun : forall s, forallb is_digit (digit_run s) = true).
  { induction s0 as [|c s0 IH]; [reflexivity|]. simpl.
    destruct (is_digit c) eqn:E; [simpl; rewrite E, IH|]; reflexivity. }
  induction s as [|c s IH]; [discriminate|]. simpl.
  destruct (is_digit c) eqn:E; [|exact IH].
  intros H; injection H as <-. split; [discriminate|]. simpl. rewrite E. simpl. apply Hrun.
Qed.

Lemma forallb_repeat0 (k : nat) : forallb is_digit (repeat "0"%char k) = true.
Proof. induction k; [reflexivity | exact IHk]. Qed.

Lemma zfill_digits (r : str) :
  r <> [] -> forallb is_digit r = true ->
  forallb is_digit (zfill 4 r) = true /\ 4 <= length (zfill 4 r).
Proof.
  intros Hne Hr. unfold zfill. destruct (Nat.leb_spec 4 (length r)) as [Hle|Hlt].
  - split; assumption.
  - destruct r as [|c r']; [contradiction|].
    pose proof (digit_not_sign c) as Hs. simpl in Hr. apply andb_true_iff in Hr as [Hc Hr'].
    rewrite Hc in Hs. cbn [negb orb] in Hs. apply negb_true_iff in Hs. rewrite Hs.
    rewrite forallb_app, forallb_repeat0, length_app, repeat_length.
    cbn [forallb andb]. rewrite Hc, Hr'.
    split; [reflexivity|]. lia.
Qed.

Lemma hash_ids :
  forallb (fun m => let z := zfill 4 (str_of_nat m) in (length z =? 4) && forallb is_digit z)
    (seq 0 10000) = true.
Proof. vm_compute. reflexivity. Qed.

(** X23: the "id" of a person is the first run of digits of the raw person
    name, zero-filled to four characters (the [' '] and ['/'] replacement
    and the upper-casing change no digit), and otherwise the hash value
    modulo 10000 zero-filled to four; it is always made of digits only, at
    least four of them, and exactly four in the hash case. *)
Theorem person_id_num_spec (hash_value : nat) (person_name : str) :
  person_id_num hash_value person_name =
    match first_digits person_name with
    | Some numbers0 => zfill 4 numbers0
    | None => zfill 4 (str_of_nat (hash_value mod 10000))
    end /\
  forallb is_digit (person_id_num hash_value person_name) = true /\
  4 <= length (person_id_num hash_value person_name) /\
  (first_digits person_name = None -> length (person_id_num hash_value person_name) = 4).
Proof.
  assert (E : person_id_num hash_value person_name =
    match first_digits person_name with
    | Some numbers0 => zfill 4 numbers0
    | None => zfill 4 (str_of_nat (hash_value mod 10000))
    end).
  { unfold person_id_num, upper, replace1. rewrite !map_map.
    rewrite first_digits_map; [reflexivity | apply id_char_digit |].
    intros c Hc. pose proof (id_char_fix c) as H. rewrite Hc in H. cbn [negb orb] in H.
    apply Ascii.eqb_eq in H. exact H. }
  assert (Hh : let z := zfill 4 (str_of_nat (hash_value mod 10000)) in
               (length z =? 4) && forallb is_digit z = true).
  { refine (proj1 (forallb_forall _ _) hash_ids _ _). apply in_seq. split; [lia|].
    rewrite Nat.add_0_l. apply Nat.mod_upper_bound. discriminate. }
  cbv zeta in Hh. apply andb_true_iff in Hh as [Hl Hd]. apply Nat.eqb_eq in Hl.
  rewrite E. split; [reflexivity|].
  destruct (first_digits person_name) as [r|] eqn:F.
  - destruct (first_digits_shape _ _ F) as [Hne Hr].
    destruct (zfill_digits r Hne Hr) as [H1 H2].
    split; [exact H1 | split; [exact H2 | discriminate]].
  - split; [exact Hd | split; [rewrite Hl; lia | intros _; exact Hl]].
Qed.

Section CsvFacts.
Variable hash : str -> nat.
Variable relpath : str -> str.

Lemma mfcc_files_nil (files_list : list (str * option str)) :
  mfcc_files files_list = [] <-> forall a m, In (a, m) files_list -> m = None.
Proof.
  induction files_list as [|[a m] fl IH]; simpl.
  - split; [intros _ a m []|reflexivity].
  - destruct m as [f|]; simpl.
    + split; [discriminate|]. intros H. discriminate (H a (Some f) (or_introl eq_refl)).
    + rewrite IH. split.
      * intros H a' m' [E|Hin]; [injection E as _ <-; reflexivity | exact (H _ _ Hin)].
      * intros H a' m' Hin. exact (H a' m' (or_intror Hin)).
Qed.

Lemma csv_rows_nil labels default pd :
  csv_rows hash relpath labels default pd = [] <->
  forall pname fl a m, In (pname, fl) pd -> In (a, m) fl -> m = None.
Proof.
  induction pd as [|[pname fl] pd IH]; simpl.
  - split; [intros _ p f a m []|reflexivity].
  - destruct (mfcc_files fl) as [|f fs] eqn:Hm.
    + rewrite IH. split.
      * intros H p f a m [E|Hin]; [injection E as <- <-|exact (H _ _ _ _ Hin)].
        apply mfcc_files_nil. exact Hm.
      * intros H p f a m Hin. exact (H p f a m (or_intror Hin)).
    + split; [discriminate|]. intros H. exfalso.
      assert (Hn : mfcc_files fl = []).
      { apply mfcc_files_nil. intros a m Hin. exact (H pname fl a m (or_introl eq_refl) Hin). }
      congruence.
Qed.

(** X24: the CSV has one row per person with at least one converted file, in
    the order of [person_data]; each row has idtype "FHS", the relative
    paths of that person's converted files (never none), the id computed
    from the person's name and the person's label; and no CSV is created
    exactly when every conversion failed. *)
Theorem csv_rows_spec (labels : list (str * nat)) (default : nat)
  (person_data : list (str * list (str * option str))) :
  let rows := csv_rows hash relpath labels default person_data in
  map row_person_name rows =
    map fst (filter (fun e => match mfcc_files (snd e) with [] => false | _ => true end) person_data) /\
  Forall (fun r =>
    idtype r = lit "FHS" /\
    id r = person_id_num (hash (row_person_name r)) (row_person_name r) /\
    is_demented_at_recording r = label_of labels default (row_person_name r) /\
    mfcc_npy_files r <> [] /\
    exists files_list, In (row_person_name r, files_list) person_data /\
      mfcc_npy_files r = map relpath (mfcc_files files_list)) rows /\
  (generate_csv hash relpath labels default person_data = None <->
     forall pname files_list a m, In (pname, files_list) person_data -> In (a, m) files_list -> m = None).
Proof.
  cbv zeta. split; [|split].
  - induction person_data as [|[pname fl] pd IH]; [reflexivity|]. simpl.
    destruct (mfcc_files fl); simpl; [exact IH | f_equal; exact IH].
  - induction person_data as [|[pname fl] pd IH]; simpl; [constructor|].
    destruct (mfcc_files fl) as [|f fs] eqn:Hm.
    + eapply Forall_impl; [|exact IH]. cbv beta. intros r (H1 & H2 & H3 & H4 & fl' & Hin & H5).
      repeat split; auto. exists fl'. split; [right; exact Hin | exact H5].
    + constructor.
      * cbn. repeat split; [discriminate|]. exists fl. split; [left; reflexivity | rewrite Hm; reflexivity].
      * eapply Forall_impl; [|exact IH]. cbv beta. intros r (H1 & H2 & H3 & H4 & fl' & Hin & H5).
        repeat split; auto. exists fl'. split; [right; exact Hin | exact H5].
  - rewrite <- (csv_rows_nil labels default). unfold generate_csv.
    destruct (csv_rows hash relpath labels default person_data); cbn; split; congruence.
Qed.
End CsvFacts.

End PersonsFacts.

(* ------------------------------------------------------------------ *)
Module BatchFacts.
Import PyStr PyPath Batch PyStrFacts.

Lemma app_suffix (t1 t2 e1 e2 : str) :
  t1 ++ e1 = t2 ++ e2 -> (exists u, e1 = u ++ e2) \/ (exists u, e2 = u ++ e1).
Proof.
  revert t2. induction t1 as [|c t1 IH]; intros t2 E.
  - left. exists t2. exact E.
  - destruct t2 as [|d t2].
    + right. exists (c :: t1). exact (eq_sym E).
    + injection E as _ E. exact (IH t2 E).
Qed.

Fixpoint no_suffixes (l : list str) : bool :=
  match l with
  | [] => true
  | e :: l' => forallb (fun e' => negb (endswith e e') && negb (endswith e' e)) l' && no_suffixes l'
  end.

Lemma endswith_both (s e1 e2 : str) :
  endswith s e1 = true -> endswith s e2 = true -> endswith e1 e2 = true \/ endswith e2 e1 = true.
Proof.
  rewrite !endswith_spec. intros [t1 ->] [t2 E].
  destruct (app_suffix _ _ _ _ E) as [[u Hu]|[u Hu]]; [left|right]; exists u; exact Hu.
Qed.

Lemma nodup_by_suffix (listing exts : list str) :
  NoDup listing -> no_suffixes exts = true ->
  NoDup (flat_map (fun ext => filter (fun f => endswith (lower f) ext) listing) exts).
Proof.
  intros Hl. induction exts as [|e exts IH]; intros Hx; [constructor|].
  simpl in Hx. apply andb_true_iff in Hx as [Hf Hx]. cbn [flat_map].
  apply NoDup_app; [apply NoDup_filter, Hl | apply IH, Hx |].
  intros f Hin1 Hin2. apply filter_In in Hin1 as [_ H1].
  apply in_flat_map in Hin2 as [e' [He' Hin2]]. apply filter_In in Hin2 as [_ H2].
  pose proof (proj1 (forallb_forall _ _) Hf e' He') as H. cbv beta in H.
  apply andb_true_iff in H as [Ha Hb]. apply negb_true_iff in Ha, Hb.
  destruct (endswith_both _ _ _ H1 H2); congruence.
Qed.

(** X25: the files converted by [batch_process] are exactly the listed files
    whose lower-cased name ends in ".mp3", ".wav", ".flac", ".m4a" or ".ogg"
    (so ".aac" files are skipped), grouped by extension; no file is
    converted twice. *)
Theorem audio_files_spec (listing : list str) (Hl : NoDup listing) :
  NoDup (audio_files listing) /\
  (forall f, In f (audio_files listing) <->
     In f listing /\ exists ext stem, In ext audio_extensions /\ lower f = stem ++ ext) /\
  audio_files listing =
    flat_map (fun ext => filter (fun f => endswith (lower f) ext) listing) audio_extensions.
Proof.
  split; [|split; [|reflexivity]].
  - apply nodup_by_suffix; [exact Hl | vm_compute; reflexivity].
  - intros f. unfold audio_files. rewrite in_flat_map. split.
    + intros [ext [He Hin]]. apply filter_In in Hin as [Hin Hs].
      apply endswith_spec in Hs as [stem Hs]. split; [exact Hin|]. exists ext, stem. auto.
    + intros [Hin [ext [stem [He Hs]]]]. exists ext. split; [exact He|].
      apply filter_In. split; [exact Hin|]. apply endswith_spec. exists stem. exact Hs.
Qed.

Lemma splitext_simple (s w : str) :
  ~ In "/"%char s -> existsb (fun c => negb (ceqb c "."%char)) s = true ->
  ~ In "/"%char w -> ~ In "."%char w ->
  splitext (s ++ "."%char :: w) = (s, "."%char :: w).
Proof.
  intros Hs1 Hs2 Hw1 Hw2. unfold splitext.
  assert (Hsl : rfind "/"%char (s ++ "."%char :: w) = None).
  { apply rfind_none. intros H. apply in_app_or in H as [H|[H|H]]; [auto|discriminate|auto]. }
  rewrite Hsl, rfind_app. cbn [rfind].
  assert (Hw : rfind "."%char w = None) by (apply rfind_none; exact Hw2).
  rewrite Hw. cbn. rewrite Nat.add_0_r, Nat.sub_0_r, firstn_app, Nat.sub_diag, firstn_all.
  cbn [firstn]. rewrite app_nil_r, Hs2. cbn [andb].
  rewrite skipn_app, Nat.sub_diag, skipn_all. reflexivity.
Qed.

Lemma audio_extensions_shape :
  forallb (fun e => match e with
                    | c :: w => ceqb c "."%char && negb (existsb (fun d => ceqb d "/"%char || ceqb d "."%char) w)
                                && eqb (lower e) e
                    | [] => false
                    end) audio_extensions = true.
Proof. vm_compute. reflexivity. Qed.

(** X26: two listed files that differ only in their audio extension, such as
    "a.mp3" and "a.wav", are both converted to the same output file
    "a.npy" in the output directory, so the later conversion overwrites the
    earlier one. *)
Theorem batch_output_collision (input_dir output_dir : str) (listing : list str)
  (s e1 e2 : str)
  (Hs1 : ~ In "/"%char s) (Hs2 : existsb (fun c => negb (ceqb c "."%char)) s = true)
  (He1 : In e1 audio_extensions) (He2 : In e2 audio_extensions)
  (Hl1 : In (s ++ e1) listing) (Hl2 : In (s ++ e2) listing) :
  In (join input_dir (s ++ e1), join output_dir (s ++ lit ".npy")) (batch_jobs input_dir output_dir listing) /\
  In (join input_dir (s ++ e2), join output_dir (s ++ lit ".npy")) (batch_jobs input_dir output_dir listing).
Proof.
  assert (Hjob : forall e, In e audio_extensions -> In (s ++ e) listing ->
            In (join input_dir (s ++ e), join output_dir (s ++ lit ".npy"))
               (batch_jobs input_dir output_dir listing)).
  { intros e He Hl. pose proof (proj1 (forallb_forall _ _) audio_extensions_shape e He) as H.
    cbv beta in H. destruct e as [|c w]; [discriminate|].
    apply andb_true_iff in H as [H Hlow]. apply andb_true_iff in H as [Hc Hw].
    apply ceqb_spec in Hc. subst c. apply eqb_spec in Hlow.
    apply negb_true_iff in Hw.
    assert (Hw1 : ~ In "/"%char w /\ ~ In "."%char w).
    { split; intros Hin; assert (Hx : existsb (fun d => ceqb d "/"%char || ceqb d "."%char) w = true)
        by (apply existsb_exists; eexists; split; [exact Hin | apply orb_true_iff;
              first [left; apply ceqb_spec; reflexivity | right; apply ceqb_spec; reflexivity]]);
        congruence. }
    destruct Hw1 as [Hw1 Hw2].
    unfold batch_jobs. apply in_map_iff. exists (s ++ "."%char :: w). split.
    - unfold output_file. rewrite (splitext_simple s w Hs1 Hs2 Hw1 Hw2). reflexivity.
    - unfold audio_files. apply in_flat_map. exists ("."%char :: w). split; [exact He|].
      apply filter_In. split; [exact Hl|]. apply endswith_spec. exists (lower s).
      unfold lower at 1. rewrite map_app. fold (lower s). fold (lower ("."%char :: w)). rewrite Hlow. reflexivity. }
  split; [apply Hjob; assumption | apply Hjob; assumption].
Qed.

End BatchFacts.

(* ------------------------------------------------------------------ *)
Module ExtraWitnesses.
Import Normalizer Samples PyStr.

Lemma reformat_raises_only_input_errors_witness :
  norm [Np (A2 bad_5x7)] = ([Tt (A2 (map_mat nat cvt_id bad_5x7))], Some (ErrShape [5; 7])) /\
  ((exists d s, ErrShape [5; 7] = ErrNotTwoD d s) \/ (exists s, ErrShape [5; 7] = ErrShape s)).
Proof.
  assert (H : norm [Np (A2 bad_5x7)] = ([Tt (A2 (map_mat nat cvt_id bad_5x7))], Some (ErrShape [5; 7])))
    by (vm_compute; reflexivity).
  split; [exact H|].
  exact (NormalizerMore.reformat_raises_only_input_errors nat 0 cvt_id _ _ _ H).
Defined.

Lemma reformat_second_pass_raises_witness :
  norm [Np (A2 short_13x2)] = (fst (norm [Np (A2 short_13x2)]), None) /\
  snd (norm (fst (norm [Np (A2 short_13x2)]))) = Some (ErrNotTwoD 3 [1; 13; SAFE_SEQ_LENGTH]).
Proof.
  assert (H : norm [Np (A2 short_13x2)] = (fst (norm [Np (A2 short_13x2)]), None))
    by (vm_compute; reflexivity).
  split; [exact H|].
  apply (NormalizerMore.reformat_second_pass_raises nat 0 cvt_id _ _ H).
  intros E. vm_compute in E. discriminate E.
Defined.

Lemma forward_wo_gpool_accepts_long_witness :
  Classifier.forward_wo_gpool (map (fun L => [1; 13; L]) [16384; 20000]) =
    inr (map (fun L => [1; 512; L / 16384]) [16384; 20000]) /\
  forall out, snd (Classifier.forward (map (fun L => [1; 13; L]) [16384; 20000])) = inr out ->
              Forall (fun L => L = 16384) [16384; 20000].
Proof.
  apply (ClassifierMore.forward_wo_gpool_accepts_long 1 [16384; 20000]).
  repeat constructor; apply Nat.leb_le; vm_compute; reflexivity.
Defined.

Lemma normalized_batch_forward_witness :
  norm [Np (A2 short_13x2)] = (fst (norm [Np (A2 short_13x2)]), None) /\
  Classifier.forward (map (fun y => shape (item_arr nat y)) (fst (norm [Np (A2 short_13x2)]))) =
    ([0], inr [1; 2]).
Proof.
  assert (H : norm [Np (A2 short_13x2)] = (fst (norm [Np (A2 short_13x2)]), None))
    by (vm_compute; reflexivity).
  split; [exact H|].
  exact (ClassifierMore.normalized_batch_forward nat 0 cvt_id _ _ H).
Defined.

Definition unit_state : Orchestrator.rt_state unit :=
  {| Orchestrator.grad_enabled := true;
     Orchestrator.model := {| Orchestrator.params := tt; Orchestrator.training := false;
                              Orchestrator.requires_grad := false |};
     Orchestrator.fwd_log := [] |}.

Definition unit_net (p : unit) (xs : list (item nat)) : Classifier.fwd_err + unit := inr tt.

Lemma predict_response_reports_raw_shape_witness :
  let run := Orchestrator.predict_response nat 0 cvt_id unit unit unit unit_net (fun s => s)
               (Np (A2 short_13x2)) unit_state in
  run = (inr (tt, [13; 2]), snd run) /\
  [13; 2] = shape (item_arr nat (Np (A2 short_13x2))) /\ length [13; 2] = 2 /\
  exists y, reformat nat 0 cvt_id [Np (A2 short_13x2)] = ([y], None) /\
    shape (item_arr nat y) = [1; 13; SAFE_SEQ_LENGTH] /\ [13; 2] <> shape (item_arr nat y).
Proof.
  cbv zeta.
  assert (H : Orchestrator.predict_response nat 0 cvt_id unit unit unit unit_net (fun s => s)
               (Np (A2 short_13x2)) unit_state =
              (inr (tt, [13; 2]), snd (Orchestrator.predict_response nat 0 cvt_id unit unit unit
                 unit_net (fun s => s) (Np (A2 short_13x2)) unit_state)))
    by (vm_compute; reflexivity).
  split; [exact H|].
  exact (OrchestratorMore.predict_response_reports_raw_shape nat 0 cvt_id unit unit unit
           unit_net (fun s => s) _ _ _ _ _ H).
Defined.

Definition sample_walk : list (str * str * nat) :=
  [(lit "/m", lit "a.pt", 3); (lit "/m", lit "tmp_b.pt", 9); (lit "/m/r", lit "c.pt", 5);
   (lit "/m", lit "d.txt", 7); (lit "/m/", lit "e.pt", 5)].

Lemma find_local_newest_witness :
  ModelFile.find_local true sample_walk = inr (lit "/m/r/c.pt") /\
  true = true /\
  exists pre t post,
    ModelFile.pt_files sample_walk = pre ++ (lit "/m/r/c.pt", t) :: post /\
    Forall (fun q => snd q < t) pre /\
    Forall (fun q => snd q <= t) (ModelFile.pt_files sample_walk) /\
    exists root file, In (root, file, t) sample_walk /\ ModelFile.candidate file = true /\
                      lit "/m/r/c.pt" = PyPath.join root file.
Proof.
  assert (H : ModelFile.find_local true sample_walk = inr (lit "/m/r/c.pt")) by (vm_compute; reflexivity).
  split; [exact H|].
  exact (ModelFileFacts.find_local_newest true sample_walk _ H).
Defined.

Definition sample_isfile (s : str) : bool :=
  eqb s (lit "/tmp/dl.pt") || eqb s (lit "/m/r/c.pt") || eqb s (lit "models/m.pt").

Definition sample_download (u : str) : option str :=
  if eqb u (lit "https://store/m.pt") then Some (lit "/tmp/dl.pt") else None.

Lemma resolve_env_priority_witness :
  ModelFile.resolve_model_path (Some (lit "https://store/m.pt")) (Some (lit "models/m.pt"))
    sample_download sample_isfile true sample_walk =
  ModelFile.resolve_model_path None (Some (lit "https://store/m.pt"))
    sample_download sample_isfile true sample_walk /\
  ModelFile.resolve_model_path (Some []) (Some (lit "models/m.pt"))
    sample_download sample_isfile true sample_walk =
  ModelFile.resolve_model_path None (Some (lit "models/m.pt"))
    sample_download sample_isfile true sample_walk.
Proof.
  apply ModelFileFacts.resolve_env_priority. discriminate.
Defined.

Lemma resolve_url_witness :
  (startswith (lit "https://store/x.pt") (lit "http://") ||
   startswith (lit "https://store/x.pt") (lit "https://")) = true /\
  (sample_download (lit "https://store/x.pt") = None ->
   ModelFile.resolve_model_path None (Some (lit "https://store/x.pt")) sample_download sample_isfile
     true sample_walk = inl (ModelFile.DownloadFailed (lit "https://store/x.pt"))) /\
  (forall tmp, sample_download (lit "https://store/x.pt") = Some tmp -> sample_isfile tmp = true ->
   ModelFile.resolve_model_path None (Some (lit "https://store/x.pt")) sample_download sample_isfile
     true sample_walk = inr tmp).
Proof.
  assert (Hs : (startswith (lit "https://store/x.pt") (lit "http://") ||
                startswith (lit "https://store/x.pt") (lit "https://")) = true) by reflexivity.
  split; [exact Hs|]. exact (ModelFileFacts.resolve_url _ _ _ _ _ Hs).
Defined.

Lemma resolve_local_path_witness :
  startswith (lit "httpdocs/m.pt") (lit "http://") = false /\
  startswith (lit "httpdocs/m.pt") (lit "https://") = false /\
  ModelFile.resolve_model_path None (Some (lit "httpdocs/m.pt")) sample_download sample_isfile
    true sample_walk = inr (lit "httpdocs/m.pt").
Proof.
  assert (H1 : startswith (lit "httpdocs/m.pt") (lit "http://") = false) by reflexivity.
  assert (H2 : startswith (lit "httpdocs/m.pt") (lit "https://") = false) by reflexivity.
  split; [exact H1 | split; [exact H2|]].
  rewrite (ModelFileFacts.resolve_local_path _ _ _ _ _ H1 H2). reflexivity.
Defined.

Lemma resolve_result_witness :
  ModelFile.resolve_model_path None None sample_download sample_isfile true sample_walk =
    inr (lit "/m/r/c.pt") /\
  (startswith (lit "/m/r/c.pt") (lit "http") = true \/ sample_isfile (lit "/m/r/c.pt") = true) /\
  (None = Some (lit "/m/r/c.pt") \/ None = Some (lit "/m/r/c.pt") \/
   (exists u, sample_download u = Some (lit "/m/r/c.pt")) \/
   exists t, In (lit "/m/r/c.pt", t) (ModelFile.pt_files sample_walk)).
Proof.
  assert (H : ModelFile.resolve_model_path None None sample_download sample_isfile true sample_walk =
              inr (lit "/m/r/c.pt")) by (vm_compute; reflexivity).
  split; [exact H|]. exact (ModelFileFacts.resolve_result _ _ _ _ _ _ _ H).
Defined.

Lemma person_name_layouts_witness :
  lit "alice" <> PyPath.name [lit "home"; lit "ds"] /\ lit "alice" <> lit "data" /\
  Persons.person_name [lit "home"; lit "ds"] ([lit "home"; lit "ds"] ++ [lit "alice"; lit "bob_1.wav"]) = lit "alice" /\
  Persons.person_name [lit "home"; lit "ds"]
    ([lit "home"; lit "ds"] ++ [lit "alice"; lit "data"; lit "bob_1.wav"]) = lit "alice" /\
  Persons.person_name [lit "home"; lit "ds"] ([lit "home"; lit "ds"] ++ [lit "data"; lit "bob_1.wav"]) =
    hd [] (split "_"%char (PyPath.stem (lit "bob_1.wav"))).
Proof.
  assert (H1 : lit "alice" <> PyPath.name [lit "home"; lit "ds"]) by (intros E; vm_compute in E; discriminate E).
  assert (H2 : lit "alice" <> lit "data") by (intros E; vm_compute in E; discriminate E).
  split; [exact H1 | split; [exact H2|]].
  exact (PersonsFacts.person_name_layouts _ _ (lit "bob_1.wav") H1 H2).
Defined.

Lemma person_name_direct_witness :
  [lit "home"; lit "ds"] <> [] /\
  Persons.person_name [lit "home"; lit "ds"] ([lit "home"; lit "ds"] ++ [lit "bob_1.wav"]) = lit "home".
Proof.
  assert (H : [lit "home"; lit "ds"] <> []) by discriminate.
  split; [exact H|].
  exact (PersonsFacts.person_name_direct _ (lit "bob_1.wav") H).
Defined.

Lemma audio_files_spec_witness :
  NoDup [lit "a.mp3"; lit "b.WAV"; lit "c.aac"] /\
  NoDup (Batch.audio_files [lit "a.mp3"; lit "b.WAV"; lit "c.aac"]) /\
  Batch.audio_files [lit "a.mp3"; lit "b.WAV"; lit "c.aac"] = [lit "a.mp3"; lit "b.WAV"].
Proof.
  assert (H : NoDup [lit "a.mp3"; lit "b.WAV"; lit "c.aac"]).
  { repeat constructor; cbn; intros E; repeat destruct E as [E|E]; try discriminate E; exact E. }
  split; [exact H|]. split; [|vm_compute; reflexivity].
  exact (proj1 (BatchFacts.audio_files_spec _ H)).
Defined.

Lemma batch_output_collision_witness :
  In (PyPath.join (lit "in") (lit "a.mp3"), PyPath.join (lit "out") (lit "a.npy"))
     (Batch.batch_jobs (lit "in") (lit "out") [lit "a.mp3"; lit "a.wav"]) /\
  In (PyPath.join (lit "in") (lit "a.wav"), PyPath.join (lit "out") (lit "a.npy"))
     (Batch.batch_jobs (lit "in") (lit "out") [lit "a.mp3"; lit "a.wav"]).
Proof.
  apply (BatchFacts.batch_output_collision (lit "in") (lit "out") [lit "a.mp3"; lit "a.wav"]
           (lit "a") (lit ".mp3") (lit ".wav")).
  - cbn. intros [E|[]]. discriminate E.
  - reflexivity.
  - cbn. left. reflexivity.
  - cbn. right. left. reflexivity.
  - left. reflexivity.
  - right. left. reflexivity.
Defined.

End ExtraWitnesses.
